(** * LLM-Knowledge-Extractor: keyword heuristic, confidence heuristic and
      the in-memory storage backend

    A shallow embedding of
      - [app/services/keywords.py]  (extract_top3_nouns_like),
      - [app/routers/analyze.py]    (_confidence_heuristic, _analyze_single,
                                     analyze),
      - [app/services/db.py]        (InMemoryDB.insert_analysis, search).

    Conventions.
      - A Python [str] is a sequence of Unicode code points: [list N].
      - Python floats are idealised as exact numbers: rationals ([Q]) for the
        keyword score, which only adds the decimal constants 0.25 and 0.10 to
        an integer and compares; real numbers ([R]) for the confidence, which
        needs [log10].
      - Python dict objects live in a heap of objects addressed by
        references, so that copying a dict and mutating the copy is visible
        as such. *)

From Stdlib Require Import ZArith NArith List String Ascii QArith Lqa Reals Lra Lia
  Sorting Permutation.
From stdpp Require Import base decidable option list sorting gmap.

Set Default Proof Using "Type".
Local Open Scope N_scope.

(** ** Python strings *)

Abbreviation pystr := (list N).

(** A string literal of the source, as code points. *)
Definition py (s : string) : pystr :=
  map N_of_ascii (list_ascii_of_string s).

Module Str.

(** [str.isspace] on one code point: the code points CPython treats as
    whitespace in [str.split()] and [str.strip()]. *)
Definition is_space (c : N) : bool :=
  ((9 <=? c) && (c <=? 13)) || ((28 <=? c) && (c <=? 32))
  || (c =? 133) || (c =? 160) || (c =? 5760)
  || ((8192 <=? c) && (c <=? 8202))
  || (c =? 8232) || (c =? 8233) || (c =? 8239) || (c =? 8287)
  || (c =? 12288).

Definition is_upper (c : N) : bool := (65 <=? c) && (c <=? 90).
Definition is_lower (c : N) : bool := (97 <=? c) && (c <=? 122).
(** [[A-Za-z]] *)
Definition is_letter (c : N) : bool := is_upper c || is_lower c.
(** [[A-Za-z\-']] *)
Definition is_word_char (c : N) : bool :=
  is_letter c || (c =? 45) || (c =? 39).

(** [str.lower] on a code point of the ASCII range; the tokens produced by
    [_WORD_RE] contain no other code point. *)
Definition lower_cp (c : N) : N := if is_upper c then c + 32 else c.
Definition lower (s : pystr) : pystr := map lower_cp s.

(** [s.lstrip()], [s.rstrip()] and [s.strip()] with no argument. *)
Fixpoint lstrip (s : pystr) : pystr :=
  match s with
  | c :: s' => if is_space c then lstrip s' else s
  | [] => []
  end.

(** [s.rstrip(chars)] for a predicate on code points: the trailing code
    points that satisfy it are removed. *)
Definition rstrip_with (p : N -> bool) (s : pystr) : pystr :=
  fold_right
    (fun c acc => match acc with
                  | [] => if p c then [] else [c]
                  | _ => c :: acc
                  end) [] s.

Definition rstrip (s : pystr) : pystr := rstrip_with is_space s.
Definition strip (s : pystr) : pystr := rstrip (lstrip s).

(** [s.split()]: the maximal runs of code points that are not whitespace.
    [cur] is the run being read. *)
Fixpoint split_aux (cur : pystr) (s : pystr) : list pystr :=
  match s with
  | [] => match cur with [] => [] | _ => [cur] end
  | c :: s' =>
      if is_space c
      then match cur with
           | [] => split_aux [] s'
           | _ => cur :: split_aux [] s'
           end
      else split_aux (cur ++ [c]) s'
  end.
Definition split (s : pystr) : list pystr := split_aux [] s.

(** [s.endswith(suf)] *)
Definition endswith (s suf : pystr) : bool :=
  bool_decide (drop (length s - length suf)%nat s = suf).

(** Comparison of two strings, code point by code point, as Python's
    [<] on [str]. *)
Fixpoint compare (a b : pystr) : comparison :=
  match a, b with
  | [], [] => Eq
  | [], _ :: _ => Lt
  | _ :: _, [] => Gt
  | x :: a', y :: b' =>
      match N.compare x y with
      | Eq => compare a' b'
      | c => c
      end
  end.

(** [s.isupper()] and [s.islower()]: no cased code point of the other
    case, and at least one cased code point (ASCII range). *)
Definition isupper (s : pystr) : bool :=
  forallb (fun c => negb (is_lower c)) s && existsb is_upper s.
Definition islower (s : pystr) : bool :=
  forallb (fun c => negb (is_upper c)) s && existsb is_lower s.

End Str.

(** ** app/services/keywords.py *)

Module Keywords.

Definition _STOPWORDS : list pystr := map py
  [ "the"; "a"; "an"; "and"; "or"; "but"; "if"; "then"; "else"; "when";
    "while"; "for"; "on"; "in"; "to"; "of"; "by"; "with"; "as"; "at";
    "from"; "that"; "this"; "these"; "those"; "it"; "its"; "be"; "is";
    "are"; "was"; "were"; "been"; "being"; "am"; "i"; "you"; "he";
    "she"; "they"; "them"; "we"; "us"; "our"; "your"; "his"; "her";
    "their"; "my"; "mine"; "yours"; "ours"; "theirs"; "do"; "does";
    "did"; "done"; "have"; "has"; "had"; "having"; "will"; "would";
    "can"; "could"; "should"; "shall"; "may"; "might"; "must"; "not";
    "no"; "yes"; "so"; "than"; "too"; "very"; "there"; "here"; "what";
    "which"; "who"; "whom"; "whose"; "how"; "why"; "where"; "into";
    "over"; "under"; "again"; "further"; "once"; "about"; "both";
    "between"; "out"; "up"; "down"; "off"; "above"; "below"; "because";
    "until"; "after"; "before"; "during"; "each"; "few"; "more"; "most";
    "other"; "some"; "such"; "only"; "own"; "same"; "s"; "t"; "d";
    "ll"; "m"; "o"; "re"; "ve"; "y"; "don"; "shouldn"; "now" ]%string.

Definition _COMMON_VERBS : list pystr := map py
  [ "use"; "build"; "create"; "make"; "run"; "scale"; "deploy";
    "call"; "send"; "fetch"; "return"; "process"; "analyze";
    "extract"; "store"; "search"; "handle"; "test"; "containerize";
    "support"; "add"; "include"; "design"; "choose"; "implement";
    "prefer"; "focus"; "integrate"; "accept"; "provide"; "generate";
    "score"; "classify"; "view" ]%string.

(** [_WORD_RE.findall(text)] for [[A-Za-z][A-Za-z\-']+]: a scan from the
    left; a match starts at a letter that is followed by at least one
    word character and takes every word character that follows; the scan
    goes on after the match.  [cur] holds the letter and the word
    characters read since the match was started, and is empty outside a
    match.  A lone letter is no match, and the code point that ends it is
    not a letter, so that no match can start there. *)
Definition emit (cur : pystr) : list pystr :=
  if (2 <=? length cur)%nat then [cur] else [].

Fixpoint findall_aux (cur : pystr) (s : pystr) : list pystr :=
  match s with
  | [] => emit cur
  | c :: s' =>
      match cur with
      | [] => if Str.is_letter c then findall_aux [c] s'
              else findall_aux [] s'
      | _ => if Str.is_word_char c then findall_aux (cur ++ [c]) s'
             else emit cur ++ findall_aux [] s'
      end
  end.
Definition findall (text : pystr) : list pystr := findall_aux [] text.

Definition apostrophe : N := 39.
(** U+2019, the curly apostrophe. *)
Definition curly : N := 8217.

(** The body of the cleaning loop up to the filter: lines 77 to 79. *)
Definition base_of (tok : pystr) : pystr :=
  let base :=
    Str.rstrip_with (N.eqb curly)
      (Str.rstrip_with (N.eqb apostrophe) (Str.lower tok)) in
  if Str.endswith base [apostrophe; 115] || Str.endswith base [curly; 115]
  then take (length base - 2)%nat base
  else base.

(** The test of line 80: the token is dropped when it holds. *)
Definition dropped (base : pystr) : bool :=
  bool_decide (base ∈ _STOPWORDS) || bool_decide (base ∈ _COMMON_VERBS)
  || (length base <? 3)%nat.

Fixpoint clean (tokens : list pystr) : list pystr :=
  match tokens with
  | [] => []
  | tok :: rest =>
      let base := base_of tok in
      if dropped base then clean rest else base :: clean rest
  end.

(** The condition of the set comprehension of line 87. *)
Definition capitalized (tok : pystr) : bool :=
  Str.isupper (take 1 tok) && Str.islower (drop 1 tok).

Definition caps_of (tokens : list pystr) : list pystr :=
  map Str.lower (filter (fun tok => capitalized tok = true) tokens).

(** [Counter(cleaned)]: a dict from word to count, in the order of first
    insertion. *)
Fixpoint counter_add (w : pystr) (c : list (pystr * Z)) : list (pystr * Z) :=
  match c with
  | [] => [(w, 1%Z)]
  | (k, n) :: c' =>
      if bool_decide (k = w) then (k, (n + 1)%Z) :: c'
      else (k, n) :: counter_add w c'
  end.

Definition Counter (cleaned : list pystr) : list (pystr * Z) :=
  fold_left (fun c w => counter_add w c) cleaned [].

(** One entry of [scored]: (word, score, freq). *)
Definition entry : Type := pystr * Q * Z.

Definition score_entry (caps : list pystr) (wf : pystr * Z) : entry :=
  let '(word, freq) := wf in
  let bonus := if bool_decide (word ∈ caps) then (25 # 100)%Q else 0%Q in
  let length_bonus := if (7 <=? length word)%nat then (10 # 100)%Q else 0%Q in
  let score := (inject_Z freq + bonus + length_bonus)%Q in
  (word, score, freq).

(** The sort key [(-x[1], -x[2], x[0])] and the comparison of two keys as
    Python compares tuples: by the first component that differs. *)
Definition key_compare (x y : entry) : comparison :=
  let '(wx, sx, fx) := x in
  let '(wy, sy, fy) := y in
  match Qcompare (- sx) (- sy) with
  | Eq => match Z.compare (- fx) (- fy) with
          | Eq => Str.compare wx wy
          | c => c
          end
  | c => c
  end.

Definition key_le (x y : entry) : Prop := key_compare x y <> Gt.

#[global] Instance key_le_dec x y : Decision (key_le x y).
Proof. unfold key_le. destruct (key_compare x y); [left|left|right]; congruence. Defined.

(** The loop of lines 98 to 103. *)
Fixpoint top_loop (scored : list entry) (top : list pystr) : list pystr :=
  match scored with
  | [] => top
  | (w, _, _) :: rest =>
      let top' := if bool_decide (w ∈ top) then top else top ++ [w] in
      if (length top' =? 3)%nat then top' else top_loop rest top'
  end.

Definition extract_top3_nouns_like (text : pystr) : list pystr :=
  if bool_decide (text = []) || bool_decide (Str.strip text = []) then []
  else
    let tokens := findall text in
    if bool_decide (tokens = []) then []
    else
      let cleaned := clean tokens in
      if bool_decide (cleaned = []) then []
      else
        let caps := caps_of tokens in
        let counts := Counter cleaned in
        let scored := map (score_entry caps) counts in
        let scored := merge_sort key_le scored in
        top_loop scored [].

End Keywords.

(** ** Specification vocabulary for the keyword extractor *)

(** The number of occurrences of [w] in [l], as a Python int. *)
Definition occurrences (w : pystr) (l : list pystr) : Z :=
  Z.of_nat (length (filter (fun x => x = w) l)).

Module KeywordSpec.
Import Keywords.

(** The tokens that survive the cleaning, with their repetitions. *)
Definition surviving (text : pystr) : list pystr := clean (findall text).

(** The raw frequency of a token. *)
Definition frequency (text w : pystr) : Z := occurrences w (surviving text).

(** The lowercase forms that appear capitalized in the text. *)
Definition capitalized_set (text : pystr) : list pystr :=
  caps_of (findall text).

(** frequency + (0.25 if in the capitalized set) + (0.10 if length >= 7) *)
Definition score (text w : pystr) : Q :=
  (inject_Z (frequency text w)
   + (if bool_decide (w ∈ capitalized_set text) then 1 # 4 else 0)
   + (if bool_decide (7 <= length w)%nat then 1 # 10 else 0))%Q.

(** [a] is ranked before [b]: higher score; at equal scores, higher raw
    frequency; at equal frequencies, the smaller string. *)
Definition ranks_before (text a b : pystr) : Prop :=
  (score text b < score text a)%Q
  ∨ ((score text a == score text b)%Q
     ∧ ((frequency text b < frequency text a)%Z
        ∨ (frequency text a = frequency text b ∧ Str.compare a b = Lt))).

(** An entry of [scored] that carries the frequency and the score of
    its word. *)
Definition faithful (text : pystr) (e : entry) : Prop :=
  e.2 = frequency text e.1.1 ∧ (e.1.2 == score text e.1.1)%Q.

End KeywordSpec.

(** ** app/routers/analyze.py: the confidence heuristic *)

Module Confidence.
Local Open Scope R_scope.

(** [math.log10] *)
Definition log10 (x : R) : R := ln x / ln 10.

(** The integer nearest to [y], the even one when [y] lies half way
    between two integers. *)
Definition round_half_even (y : R) : Z :=
  let f := Int_part y in
  match total_order_T (y - IZR f) (1 / 2) with
  | inleft (left _) => f
  | inleft (right _) => if Z.even f then f else (f + 1)%Z
  | inright _ => (f + 1)%Z
  end.

(** [round(x, ndigits)] *)
Definition round (x : R) (ndigits : nat) : R :=
  IZR (round_half_even (x * 10 ^ ndigits)) / 10 ^ ndigits.

(** [len(text.split())] *)
Definition word_count (text : pystr) : Z :=
  Z.of_nat (length (Str.split text)).

Definition _confidence_heuristic (text : pystr) (llm_ok : bool) : R :=
  let n := Z.max 1 (word_count text) in
  let length_bonus := Rmin 0.30 (log10 (IZR (n + 9)) / 10.0) in
  let llm_bonus := if llm_ok then 0.10 else 0.0 in
  let conf := 0.55 + length_bonus + llm_bonus in
  Rmax 0.50 (Rmin 0.98 (round conf 3)).

(** The value of [conf] before rounding and clamping. *)
Definition raw_confidence (text : pystr) (llm_ok : bool) : R :=
  let n := Z.max 1 (word_count text) in
  let length_bonus := Rmin 0.30 (log10 (IZR (n + 9)) / 10.0) in
  let llm_bonus := if llm_ok then 0.10 else 0.0 in
  0.55 + length_bonus + llm_bonus.

End Confidence.

(** ** The confidence heuristic as the specification words it *)

Module ConfidenceSpec.
Local Open Scope R_scope.

(** Number of words of a text: the text is split on whitespace. *)
Definition wordCount (text : pystr) : nat := length (Str.split text).

Definition round3 (x : R) : R := Confidence.round x 3.

Definition clamp (lo hi x : R) : R := Rmax lo (Rmin hi x).

Definition confidence (text : pystr) (externalCallSucceeded : bool) : R :=
  clamp 0.50 0.98
    (round3 (0.55
             + Rmin 0.30
                 (Confidence.log10 (INR (Nat.max 1 (wordCount text)) + 9) / 10)
             + (if externalCallSucceeded then 0.10 else 0.0))).

End ConfidenceSpec.

(** ** The interpreter state *)

(** A reference to a dict object. *)
Abbreviation loc := positive.

(** A row, as [_analyze_single] builds it and as the [Analysis] model of
    [app/models.py] reads it back.  [row_id] is [None] when the dict has no
    ["id"] key or holds [None] there. *)
Record Row : Type := mkRow {
  row_id : option pystr;
  row_title : option pystr;
  row_summary : pystr;
  row_topics : list pystr;
  row_sentiment : pystr;
  row_keywords : list pystr;
  row_confidence : R;
  row_text : pystr
}.

(** [heap] holds the dict objects; [_rows] is the list of the [InMemoryDB]
    instance, a list of references; [drawn] counts the calls of
    [uuid.uuid4] and [calls] the calls of the LLM client so far: the
    outcome of the next call is a function of its rank. *)
Record World : Type := mkWorld {
  heap : gmap loc Row;
  _rows : list loc;
  drawn : nat;
  calls : nat
}.

Definition set_heap (h : gmap loc Row) (w : World) : World :=
  mkWorld h (_rows w) (drawn w) (calls w).
Definition set_rows (l : list loc) (w : World) : World :=
  mkWorld (heap w) l (drawn w) (calls w).
Definition draw (w : World) : World :=
  mkWorld (heap w) (_rows w) (S (drawn w)) (calls w).
Definition tick (w : World) : World :=
  mkWorld (heap w) (_rows w) (drawn w) (S (calls w)).

Definition set_id (v : option pystr) (r : Row) : Row :=
  mkRow v (row_title r) (row_summary r) (row_topics r) (row_sentiment r)
        (row_keywords r) (row_confidence r) (row_text r).

(** Allocation of a new dict object with the given content. *)
Definition alloc (r : Row) (w : World) : loc * World :=
  let l := fresh (dom (heap w)) in
  (l, set_heap (<[l := r]> (heap w)) w).

(** ** app/services/db.py: the in-memory backend *)

Module InMemoryDB.
Section Backend.

(** [str.lower] on arbitrary strings, and the string of the k-th uuid
    drawn. *)
Variable str_lower : pystr -> pystr.
Variable uuid4 : nat -> pystr.

(** [not v] for the value of [item.get("id")]. *)
Definition falsy (v : option pystr) : bool :=
  match v with
  | None => true
  | Some [] => true
  | Some (_ :: _) => false
  end.

(** [insert_analysis(self, row)].  [None] stands for a reference to no
    object, which Python cannot produce. *)
Definition insert_analysis (row : loc) (w : World) : option (loc * World) :=
  match heap w !! row with
  | None => None
  | Some r =>
      let '(item, w) := alloc r w in
      let w :=
        if falsy (row_id r)
        then draw (set_heap (<[item := set_id (Some (uuid4 (drawn w))) r]> (heap w)) w)
        else w in
      let w := set_rows (_rows w ++ [item]) w in
      Some (item, w)
  end.

(** The test of line 54 on the dict [r] for the query [q]. *)
Definition hit (q : pystr) (r : Row) : bool :=
  let topics := map str_lower (row_topics r) in
  let keywords := map str_lower (row_keywords r) in
  bool_decide (q ∈ topics) || bool_decide (q ∈ keywords).

(** The loop of lines 51 to 55. *)
Fixpoint search_loop (h : gmap loc Row) (q : pystr) (rows results : list loc)
  : list loc :=
  match rows with
  | [] => results
  | r :: rest =>
      match h !! r with
      | Some d =>
          if hit q d then search_loop h q rest (results ++ [r])
          else search_loop h q rest results
      | None => search_loop h q rest results
      end
  end.

(** [search(self, topic)]: the references of the dicts returned. *)
Definition search (topic : pystr) (w : World) : list loc :=
  let q := Str.strip (str_lower topic) in
  if bool_decide (q = []) then _rows w
  else search_loop (heap w) q (_rows w) [].

End Backend.
End InMemoryDB.

(** ** app/routers/analyze.py: the endpoint *)

Module Analyze.
Section Router.

Variable uuid4 : nat -> pystr.

(** The dict returned by [LLMClient.extract_metadata]. *)
Record Meta : Type := mkMeta {
  meta_title : option pystr;
  meta_topics : list pystr;
  meta_sentiment : pystr
}.

(** The LLM client: the outcome of the k-th call on a text; [None] when
    the call raises. *)
Variable summarize : nat -> pystr -> option pystr.
Variable extract_metadata : nat -> pystr -> option Meta.

Inductive exn : Type :=
| HTTPException (status_code : Z) (detail : string)
| NoSuchObject.

Definition fallback_summary : pystr :=
  py "LLM unavailable. Summary could not be generated.".
Definition fallback_topics : list pystr :=
  [py "general"; py "unknown"; py "llm-failure"].
Definition neutral : pystr := py "neutral".

(** The [try] statement of lines 53 to 65: summary, title, topics,
    sentiment and llm_ok. *)
Definition call_llm (t : pystr) (w : World)
  : (pystr * option pystr * list pystr * pystr * bool) * World :=
  match summarize (calls w) t with
  | None =>
      ((fallback_summary, None, fallback_topics, neutral, false), tick w)
  | Some summary =>
      let w := tick w in
      match extract_metadata (calls w) t with
      | None =>
          ((fallback_summary, None, fallback_topics, neutral, false), tick w)
      | Some meta =>
          ((summary, meta_title meta, meta_topics meta, meta_sentiment meta,
            true), tick w)
      end
  end.

Definition _analyze_single (text : pystr) (w : World) : (exn + Row) * World :=
  let t := Str.strip text in
  if bool_decide (t = []) then (inl (HTTPException 400 "Empty input text."), w)
  else
    let keywords := Keywords.extract_top3_nouns_like t in
    let '((summary, title, topics, sentiment, llm_ok), w) := call_llm t w in
    let confidence := Confidence._confidence_heuristic t llm_ok in
    let '(row, w) :=
      alloc (mkRow None title summary topics sentiment keywords confidence t) w in
    match InMemoryDB.insert_analysis uuid4 row w with
    | None => (inl NoSuchObject, w)
    | Some (saved, w) =>
        match heap w !! saved with
        | Some r => (inr r, w)
        | None => (inl NoSuchObject, w)
        end
    end.

Record AnalyzeRequest : Type := mkRequest {
  req_text : option pystr;
  req_items : option (list pystr)
}.

(** Lines 92 to 104: the texts of a request. *)
Definition items_of (payload : AnalyzeRequest) : exn + list pystr :=
  match req_items payload with
  | Some items =>
      if bool_decide (length items = 0%nat)
      then inl (HTTPException 400
                  "Batch 'items' must be a non-empty list of strings.")
      else inr items
  | None =>
      match req_text payload with
      | Some text => inr [text]
      | None => inl (HTTPException 400 "Provide 'text' or 'items' with data.")
      end
  end.

(** The loop of lines 107 and 108. *)
Fixpoint analyze_loop (items : list pystr) (results : list Row) (w : World)
  : (exn + list Row) * World :=
  match items with
  | [] => (inr results, w)
  | t :: rest =>
      match _analyze_single t w with
      | (inl e, w) => (inl e, w)
      | (inr a, w) => analyze_loop rest (results ++ [a]) w
      end
  end.

Definition analyze (payload : AnalyzeRequest) (w : World)
  : (exn + list Row) * World :=
  match items_of payload with
  | inl e => (inl e, w)
  | inr items => analyze_loop items [] w
  end.

End Router.
End Analyze.

(** ** Specification vocabulary for the backend and the endpoint *)

Module StorageSpec.
Section Vocabulary.

Variable str_lower : pystr -> pystr.
Variable uuid4 : nat -> pystr.

(** The query equals, up to letter case, an entry of the topics or of the
    keywords of the record: the whole entry, after the query is trimmed. *)
Definition exact_match (query : pystr) (r : Row) : Prop :=
  Exists (fun e => str_lower e = Str.strip (str_lower query))
         (row_topics r ++ row_keywords r).

(** The dict behind the reference [l] is matched by the query. *)
Definition selected (h : gmap loc Row) (query : pystr) (l : loc) : Prop :=
  match h !! l with
  | Some r => exact_match query r
  | None => False
  end.

#[global] Instance selected_dec h query l : Decision (selected h query l).
Proof.
  unfold selected. destruct (h !! l); [|right; tauto].
  unfold exact_match. apply _.
Defined.

(** The record [r] agrees with [r0] on every field but the id. *)
Definition same_but_id (r r0 : Row) : Prop :=
  row_title r = row_title r0 ∧ row_summary r = row_summary r0
  ∧ row_topics r = row_topics r0 ∧ row_sentiment r = row_sentiment r0
  ∧ row_keywords r = row_keywords r0 ∧ row_confidence r = row_confidence r0
  ∧ row_text r = row_text r0.

(** The round trip as the specification states it: whatever the store and
    the record, for every entry [k] of its keywords that is not blank and
    every spelling [k'] of [k] in another letter case, the search for [k']
    after the insertion returns a record with the id of the stored one. *)
Definition roundtrip_as_stated : Prop :=
  ∀ (w : World) (row : loc) (r : Row) (k k' : pystr),
    heap w !! row = Some r ->
    k ∈ row_keywords r ->
    forallb Str.is_space k = false ->
    str_lower k' = str_lower k ->
    ∃ item w' stored,
      InMemoryDB.insert_analysis uuid4 row w = Some (item, w')
      ∧ heap w' !! item = Some stored
      ∧ ∃ l found, l ∈ InMemoryDB.search str_lower k' w'
                   ∧ heap w' !! l = Some found
                   ∧ row_id found = row_id stored.

End Vocabulary.
End StorageSpec.

Module AnalyzeSpec.
Section Vocabulary.

Variable uuid4 : nat -> pystr.
Variable summarize : nat -> pystr -> option pystr.
Variable extract_metadata : nat -> pystr -> option Analyze.Meta.

(** The external capability fails on the text [t] in the world [w]: the
    call of [summarize] raises, or the call of [extract_metadata] that
    follows it does. *)
Definition llm_fails (t : pystr) (w : World) : Prop :=
  summarize (calls w) t = None ∨ extract_metadata (S (calls w)) t = None.

(** The record of a text whose analysis went without the external
    capability. *)
Definition degraded (t : pystr) (a : Row) : Prop :=
  row_summary a = Analyze.fallback_summary
  ∧ row_title a = None
  ∧ row_topics a = [py "general"; py "unknown"; py "llm-failure"]
  ∧ row_sentiment a = py "neutral"
  ∧ row_confidence a = Confidence._confidence_heuristic t false.

(** The record [a] is the last one of the store of [w'], which holds the
    records of [w] before it. *)
Definition persisted (a : Row) (w w' : World) : Prop :=
  ∃ l, _rows w' = _rows w ++ [l] ∧ heap w' !! l = Some a.

(** The texts [items] were analysed one after the other from the world
    [w] to the world [w'], each of them gave its record in [results], each
    record was persisted, and every text on which the external capability
    failed has a degraded record. *)
Fixpoint isolated (w : World) (items : list pystr) (results : list Row)
  (w' : World) : Prop :=
  match items, results with
  | [], [] => w' = w
  | t :: items', a :: results' =>
      ∃ w1,
        Analyze._analyze_single uuid4 summarize extract_metadata t w = (inr a, w1)
        ∧ persisted a w w1
        ∧ row_text a = Str.strip t
        ∧ (llm_fails (Str.strip t) w -> degraded (Str.strip t) a)
        ∧ isolated w1 items' results' w'
  | _, _ => False
  end.

End Vocabulary.
End AnalyzeSpec.

(** ** Sample data *)

Module Sample.

Definition text : pystr :=
  py "OpenAI released a powerful model. The model helps developers build AI products. Developers love the model.".

(** A uuid source: the k-th string drawn is "uuid-" followed by k marks. *)
Definition uuid4 (k : nat) : pystr := py "uuid-" ++ repeat 35 (S k).

(** A record whose only keyword carries a leading space. *)
Definition padded : Row :=
  mkRow None None (py "s") [py "general"] (py "neutral") [py " ai"] 0.65 (py " ai").

(** A record with the keyword "air". *)
Definition air : Row :=
  mkRow (Some (py "r1")) None (py "s") [py "general"] (py "neutral")
        [py "air"] 0.65 (py "air").

(** A world with one dict object, not stored yet. *)
Definition world_with (r : Row) : World := mkWorld {[ 1%positive := r ]} [] 0 0.

(** A world whose store holds one record. *)
Definition stored_world (r : Row) : World :=
  mkWorld {[ 1%positive := r ]} [1%positive] 0 0.

Definition empty_world : World := mkWorld ∅ [] 0 0.

(** An LLM client that raises on its first call and answers afterwards. *)
Definition summarize (k : nat) (t : pystr) : option pystr :=
  match k with
  | O => None
  | S _ => Some (py "This is a mock summary of the provided text.")
  end.
Definition extract_metadata (k : nat) (t : pystr) : option Analyze.Meta :=
  Some (Analyze.mkMeta None [py "technology"; py "ai"; py "engineering"]
                       (py "neutral")).

Definition batch : Analyze.AnalyzeRequest :=
  Analyze.mkRequest None
    (Some [py "First text about AI."; py "Second text about databases."]).

End Sample.


(** ** Further vocabulary *)

(** A token of [_WORD_RE]: an ASCII letter followed by at least one letter,
    hyphen or apostrophe. *)
Definition word_shaped (tok : pystr) : Prop :=
  ∃ c rest, tok = c :: rest ∧ Str.is_letter c = true ∧ rest ≠ []
            ∧ Forall (fun d => Str.is_word_char d = true) rest.

(** A lowercase ASCII word: a letter a-z followed by letters a-z, hyphens
    and apostrophes. *)
Definition lowercase_word (w : pystr) : Prop :=
  ∃ c rest, w = c :: rest ∧ Str.is_lower c = true
            ∧ Forall (fun d => Str.is_lower d = true ∨ d = 45 ∨ d = 39) rest.

(** Every reference of the store is a live dict object, and no reference
    is stored twice. *)
Definition well_formed (w : World) : Prop :=
  (∀ l, l ∈ _rows w -> is_Some (heap w !! l)) ∧ NoDup (_rows w).

(** The ids of the stored records, in insertion order. *)
Definition stored_ids (w : World) : list (option pystr) :=
  map (fun l => match heap w !! l with
                | Some r => row_id r
                | None => None
                end) (_rows w).

(** The ids of the stored records are the uuids drawn so far, in the order
    of the draws: every record of the store went through [analyze]. *)
Definition ids_in_sequence (uuid4 : nat -> pystr) (w : World) : Prop :=
  well_formed w
  ∧ stored_ids w = map (fun k => Some (uuid4 k)) (seq 0 (drawn w)).

Module Sample2.

(** A batch whose second text is blank. *)
Definition with_blank : Analyze.AnalyzeRequest :=
Analyze.mkRequest None (Some [py "ok text"; py "  "; py "later"]).

(** A world in which the LLM client has been called once. *)
Definition warm_world : World := mkWorld ∅ [] 0 1.

End Sample2.

(** ** app/services/db.py: the Supabase backend *)

Module SupabaseDB.

(** The outcome of a request to the remote store: the request raises, or
  it answers with a response whose [data] attribute may be missing. *)
Inductive remote (A : Type) : Type :=
| Raises
| Responds (data : option A).
Arguments Raises {A}.
Arguments Responds {A} data.

Inductive column : Type := topics | keywords.

(** [RemoteError]: the client raised; [RuntimeError]: the error raised at
  line 80, "Supabase insert failed: ..." *)
Inductive failure : Type :=
| RemoteError
| RuntimeError.

Section Backend.

(** The remote table: the rows answered to an insertion, to the selection
  of the hundred latest rows, and to a [contains] selection on a
  column. *)
Variable remote_insert : Row -> remote (list Row).
Variable select_latest : remote (list Row).
Variable select_contains : column -> list pystr -> remote (list Row).

(** [insert_analysis(self, row)] *)
Definition insert_analysis (row : Row) : failure + Row :=
match remote_insert row with
| Raises => inl RemoteError
| Responds data =>
    match data with
    | Some (first :: _) => inr first
    | _ => inl RuntimeError
    end
end.

(** The two loops of lines 100 to 109: the rows whose id is not in [ids]
  yet are appended to [results]. *)
Fixpoint merge_loop (rows : list Row) (ids : gset (option pystr))
(results : list Row) : gset (option pystr) * list Row :=
match rows with
| [] => (ids, results)
| row :: rest =>
    let rid := row_id row in
    if decide (rid ∈ ids) then merge_loop rest ids results
    else merge_loop rest ({[ rid ]} ∪ ids) (results ++ [row])
end.

(** [getattr(res, "data", []) or []] *)
Definition data_of (data : option (list Row)) : list Row := default [] data.

(** [search(self, topic)] *)
Definition search (topic : pystr) : failure + list Row :=
let q := Str.strip topic in
if bool_decide (q = []) then
  match select_latest with
  | Raises => inl RemoteError
  | Responds res => inr (data_of res)
  end
else
  match select_contains topics [q] with
  | Raises => inl RemoteError
  | Responds topics_res =>
      match select_contains keywords [q] with
      | Raises => inl RemoteError
      | Responds keywords_res =>
          let '(ids, results) := merge_loop (data_of topics_res) ∅ [] in
          let '(ids, results) := merge_loop (data_of keywords_res) ids results in
          inr results
      end
  end.

End Backend.
End SupabaseDB.

(** ** app/main.py with the two routers, in-memory backend *)

Module Service.
Section App.

Variable str_lower : pystr -> pystr.
Variable uuid4 : nat -> pystr.
Variable summarize : nat -> pystr -> option pystr.
Variable extract_metadata : nat -> pystr -> option Analyze.Meta.

(** [get_db()] when [USE_INMEM_DB] is set: [InMemoryDB()], an instance
  with a new empty list. *)
Definition get_db : list loc := [].

(** The state of the application: the interpreter state, whose [_rows] is
  the list of the instance [db] of [app/routers/analyze.py], and the list
  of the instance [db] of [app/routers/search.py]. *)
Record App : Type := mkApp {
interp : World;
search_db : list loc
}.

(** The import of the two router modules: each calls [get_db()]. *)
Definition startup : App := mkApp (mkWorld ∅ get_db 0 0) get_db.

(** [search(topic)] of [app/routers/search.py]: the records returned. *)
Definition search_endpoint (topic : option pystr) (a : App) : list Row :=
let rows :=
  InMemoryDB.search str_lower (default [] topic)
    (set_rows (search_db a) (interp a)) in
omap (fun r => heap (interp a) !! r) rows.

Inductive request : Type :=
| POST_analyze (payload : Analyze.AnalyzeRequest)
| GET_search (topic : option pystr).

Inductive response : Type :=
| Results (results : list Row)
| Failed (e : Analyze.exn).

Definition handle (a : App) (r : request) : response * App :=
match r with
| POST_analyze payload =>
    match Analyze.analyze uuid4 summarize extract_metadata payload (interp a) with
    | (inl e, w) => (Failed e, mkApp w (search_db a))
    | (inr results, w) => (Results results, mkApp w (search_db a))
    end
| GET_search topic => (Results (search_endpoint topic a), a)
end.

(** The application after a sequence of requests. *)
Definition serve (a : App) (requests : list request) : App :=
fold_left (fun a r => snd (handle a r)) requests a.

End App.
End Service.

Module Sample3.

Definition rowA : Row :=
mkRow (Some (py "a")) None (py "s") [py "ai"] (py "neutral") [py "model"] 0.65 (py "t").
Definition rowB : Row :=
mkRow (Some (py "b")) None (py "s") [py "ai"] (py "neutral") [py "ai"] 0.65 (py "t").
Definition rowC : Row :=
mkRow (Some (py "c")) None (py "s") [py "data"] (py "neutral") [py "ai"] 0.65 (py "t").

(** A remote table that answers [rowA; rowB] on topics and [rowB; rowC] on
  keywords. *)
Definition select_contains (c : SupabaseDB.column) (q : list pystr)
: SupabaseDB.remote (list Row) :=
match c with
| SupabaseDB.topics => SupabaseDB.Responds (Some [rowA; rowB])
| SupabaseDB.keywords => SupabaseDB.Responds (Some [rowB; rowC])
end.

End Sample3.

(** ** app/services/llm.py *)

Module LLM.

(** A value returned by [json.loads].  [JObj] lists the items of the dict,
  whose keys are distinct; [JNonFinite] stands for NaN and the two
  infinities, which [json.loads] accepts. *)
#[warnings="-register-all"]
Inductive json : Type :=
| JNull
| JBool (b : bool)
| JNum (q : Q)
| JNonFinite
| JStr (s : pystr)
| JList (l : list json)
| JObj (items : list (pystr * json)).

(** The truth value of a Python object. *)
Definition truthy (v : json) : bool :=
match v with
| JNull => false
| JBool b => b
| JNum q => negb (Qeq_bool q 0)
| JNonFinite => true
| JStr s => negb (bool_decide (s = []))
| JList l => negb (bool_decide (length l = 0%nat))
| JObj items => negb (bool_decide (length items = 0%nat))
end.

(** [d.get(key)] *)
Fixpoint dict_get (key : pystr) (items : list (pystr * json)) : json :=
match items with
| [] => JNull
| (k, v) :: rest => if bool_decide (k = key) then v else dict_get key rest
end.

(** [x or default] *)
Definition or_else (x default : json) : json :=
if truthy x then x else default.

(** The values met by [for t in v]; [None] when [v] is not iterable.  A
  string gives its characters, a dict its keys. *)
Definition iterate (v : json) : option (list json) :=
match v with
| JList l => Some l
| JStr s => Some (map (fun c => JStr [c]) s)
| JObj items => Some (map (fun kv => JStr (fst kv)) items)
| JNull | JBool _ | JNum _ | JNonFinite => None
end.

(** Lists and dicts cannot be hashed: looking one up in a set raises. *)
Definition hashable (v : json) : bool :=
match v with
| JList _ | JObj _ => false
| _ => true
end.

Definition as_str (v : json) : option pystr :=
match v with
| JStr s => Some s
| _ => None
end.

Definition sentiments : list pystr := [py "positive"; py "neutral"; py "negative"].

(** Lines 93 to 103 of [extract_metadata]: from the parsed answer to the
  returned dict.  [None] when an exception is raised: [data] has no
  [get], the topics cannot be iterated over, or the sentiment cannot be
  hashed. *)
Definition normalize (data : json) : option Analyze.Meta :=
match data with
| JObj d =>
    let title := as_str (dict_get (py "title") d) in
    let topics := or_else (dict_get (py "topics") d) (JList []) in
    let sentiment := or_else (dict_get (py "sentiment") d) (JStr (py "neutral")) in
    match iterate topics with
    | None => None
    | Some ts =>
        let topics := omap as_str ts in
        let topics :=
          if (3 <=? length topics)%nat then take 3 topics
          else take 3 (topics ++ repeat (py "general") 3) in
        if hashable sentiment then
          let sentiment :=
            match sentiment with
            | JStr s => if bool_decide (s ∈ sentiments) then s else py "neutral"
            | _ => py "neutral"
            end in
          Some (Analyze.mkMeta title topics sentiment)
        else None
    end
| _ => None
end.

Definition backtick : N := 96.

(** [s.lstrip(chars)] for a predicate on code points. *)
Fixpoint lstrip_with (p : N -> bool) (s : pystr) : pystr :=
match s with
| c :: s' => if p c then lstrip_with p s' else s
| [] => []
end.

(** [s.startswith(prefix)] *)
Definition startswith (s pre : pystr) : bool :=
bool_decide (take (length pre) s = pre).

(** Lines 87 to 91: the answer without its code fence. *)
Definition unfence (raw : pystr) : pystr :=
let cleaned := raw in
if startswith cleaned (py "```") then
  let cleaned :=
    Str.rstrip_with (N.eqb backtick) (lstrip_with (N.eqb backtick) cleaned) in
  if startswith cleaned (py "json") then drop 4 cleaned else cleaned
else cleaned.

(** The two prompts, which only the remote model reads. *)
Inductive prompt : Type := _SUMMARY_PROMPT | _META_PROMPT.

Section Client.

(** [settings.USE_MOCK_LLM] *)
Variable use_mock : bool.
(** The k-th call of [self.model.generate_content]: [None] when it raises,
  and else [response.text], which may be [None]. *)
Variable generate_content : nat -> prompt -> pystr -> option (option pystr).
(** [json.loads]; [None] when it raises. *)
Variable json_loads : pystr -> option json.

Definition summarize (k : nat) (text : pystr) : option pystr :=
if use_mock then Some (py "This is a mock summary of the provided text.")
else
  match generate_content k _SUMMARY_PROMPT text with
  | None => None
  | Some response_text => Some (Str.strip (default [] response_text))
  end.

Definition extract_metadata (k : nat) (text : pystr) : option Analyze.Meta :=
if use_mock then
  Some (Analyze.mkMeta None [py "technology"; py "ai"; py "engineering"]
                       (py "neutral"))
else
  match generate_content k _META_PROMPT text with
  | None => None
  | Some response_text =>
      let raw := Str.strip (default [] response_text) in
      let cleaned := unfence raw in
      match json_loads cleaned with
      | None => None
      | Some data => normalize data
      end
  end.

End Client.
End LLM.

(** A record as the data model wants it: an id, three topics, one of the
    three sentiments, at most three keywords, and a text that is not
    empty. *)
Definition record_shaped (a : Row) : Prop :=
  (∃ i, row_id a = Some i)
  ∧ length (row_topics a) = 3%nat
  ∧ row_sentiment a ∈ LLM.sentiments
  ∧ (length (row_keywords a) <= 3)%nat
  ∧ row_text a ≠ [].

(** ** Facts about strings *)

Section StrFacts.

Lemma lower_cp_idem c : Str.lower_cp (Str.lower_cp c) = Str.lower_cp c.
Proof.
  unfold Str.lower_cp, Str.is_upper.
  destruct (65 <=? c) eqn:A, (c <=? 90) eqn:B; simpl; try (rewrite ?A, ?B; reflexivity).
  apply N.leb_le in A. apply N.leb_le in B.
  replace (c + 32 <=? 90) with false by (symmetry; apply N.leb_gt; lia).
  rewrite andb_false_r. reflexivity.
Qed.

Lemma lower_idem s : Str.lower (Str.lower s) = Str.lower s.
Proof.
  unfold Str.lower. rewrite <- list_fmap_compose.
  apply list_fmap_ext. intros i x _. apply lower_cp_idem.
Qed.

Lemma rstrip_with_prefix p s : Str.rstrip_with p s `prefix_of` s.
Proof.
  induction s as [|c s IH]; simpl; [reflexivity|].
  fold (Str.rstrip_with p s).
  destruct (Str.rstrip_with p s) as [|d r] eqn:E.
  - destruct (p c); [apply prefix_nil|].
    apply prefix_cons, prefix_nil.
  - apply prefix_cons, IH.
Qed.

Lemma lstrip_blank s : forallb Str.is_space s = true -> Str.lstrip s = [].
Proof.
  induction s as [|c s IH]; simpl; [reflexivity|].
  intros [Hc Hs]%andb_prop. rewrite Hc. auto.
Qed.

Lemma strip_blank s : forallb Str.is_space s = true -> Str.strip s = [].
Proof. intros H. unfold Str.strip. rewrite lstrip_blank by assumption. reflexivity. Qed.

Lemma compare_antisym a b : Str.compare b a = CompOpp (Str.compare a b).
Proof.
  revert b. induction a as [|x a IH]; intros [|y b]; simpl; try reflexivity.
  rewrite (N.compare_antisym x y).
  destruct (x ?= y); simpl; auto.
Qed.

Lemma compare_eq a b : Str.compare a b = Eq <-> a = b.
Proof.
  revert b. induction a as [|x a IH]; intros [|y b]; simpl; try (split; congruence).
  destruct (N.compare_spec x y) as [->|H|H].
  - rewrite IH. split; congruence.
  - split; [congruence|]. intros [= -> _]. lia.
  - split; [congruence|]. intros [= -> _]. lia.
Qed.

Lemma compare_lt_trans a b c :
  Str.compare a b = Lt -> Str.compare b c = Lt -> Str.compare a c = Lt.
Proof.
  revert b c. induction a as [|x a IH]; intros [|y b] [|z c]; simpl; try congruence.
  destruct (N.compare_spec x y) as [->|H|H]; try congruence.
  - destruct (z ?= y) eqn:E; destruct (y ?= z) eqn:E'; try congruence; eauto.
  - destruct (N.compare_spec y z) as [->|H'|H']; try congruence; intros _ _.
    + apply N.compare_lt_iff in H. rewrite H. reflexivity.
    + assert (x < z) as ->%N.compare_lt_iff by lia. reflexivity.
Qed.

End StrFacts.

(** ** Facts about the counter *)

Import Keywords KeywordSpec.

Lemma counter_add_keys w c :
  (counter_add w c).*1 = if bool_decide (w ∈ c.*1) then c.*1 else c.*1 ++ [w].
Proof.
  induction c as [|[k n] c IH].
  - reflexivity.
  - cbn [counter_add]. destruct (bool_decide (k = w)) eqn:Hk.
    + apply bool_decide_eq_true in Hk. subst. rewrite !fmap_cons. cbn [fst].
      rewrite bool_decide_eq_true_2 by left. reflexivity.
    + apply bool_decide_eq_false in Hk. rewrite !fmap_cons. cbn [fst].
      rewrite IH. destruct (decide (w ∈ c.*1)) as [Hin|Hin].
      * rewrite !bool_decide_eq_true_2; [reflexivity|right; assumption|assumption].
      * rewrite !bool_decide_eq_false_2; [reflexivity| |assumption].
        intros [?|?]%elem_of_cons; congruence.
Qed.

Lemma occurrences_snoc w l x :
  occurrences w (l ++ [x])
  = (occurrences w l + (if bool_decide (x = w) then 1 else 0))%Z.
Proof.
  unfold occurrences. rewrite filter_app, length_app.
  rewrite filter_cons, filter_nil.
  case_bool_decide; destruct (decide (x = w)); try congruence; simpl; lia.
Qed.

Lemma occurrences_pos w l : w ∈ l -> (0 < occurrences w l)%Z.
Proof.
  intros H. unfold occurrences.
  assert (w ∈ filter (fun x => x = w) l) as Hin by (apply list_elem_of_filter; auto).
  destruct (filter (fun x => x = w) l); [inversion Hin|simpl; lia].
Qed.

Lemma occurrences_notin w l : w ∉ l -> occurrences w l = 0%Z.
Proof.
  intros H. unfold occurrences.
  destruct (filter (fun x => x = w) l) as [|y r] eqn:E; [reflexivity|].
  assert (y ∈ filter (fun x => x = w) l) as Hin by (rewrite E; left).
  apply list_elem_of_filter in Hin as [-> Hin]. contradiction.
Qed.

Lemma counter_add_elem w c w' n' :
  NoDup c.*1 ->
  (w', n') ∈ counter_add w c <->
    ((w' ≠ w) ∧ ((w', n') ∈ c))
    ∨ ((w' = w) ∧ (((w, (n' - 1)%Z) ∈ c) ∨ ((w ∉ c.*1) ∧ (n' = 1%Z)))).
Proof.
  induction c as [|[k n] c IH]; intros ND.
  - cbn [counter_add]. rewrite list_elem_of_singleton. split.
    + intros [= -> ->]. right. split; [reflexivity|]. right.
      split; [apply not_elem_of_nil|reflexivity].
    + intros [[_ H]|[-> [H|[_ ->]]]]; try (inversion H; fail). reflexivity.
  - rewrite fmap_cons in ND. cbn [fst] in ND.
    apply NoDup_cons in ND as [Hk ND]. specialize (IH ND).
    assert (∀ m, (k, m) ∉ c) as Hk'.
    { intros m Hm. apply Hk. apply list_elem_of_fmap. exists (k, m). auto. }
    cbn [counter_add]. rewrite fmap_cons. cbn [fst].
    destruct (bool_decide (k = w)) eqn:Hkw.
    + apply bool_decide_eq_true in Hkw. subst k. rewrite !elem_of_cons. split.
      * intros [E|H].
        -- injection E as -> ->. right. split; [reflexivity|]. left. left. f_equal. lia.
        -- destruct (decide (w' = w)) as [->|Hne]; [|left; auto].
           exfalso. eapply Hk'; eauto.
      * intros [[Hne [E|H]]|[-> [[E|H]|[Hn ->]]]].
        -- congruence.
        -- right. assumption.
        -- left. injection E as <-. f_equal. lia.
        -- exfalso. eapply Hk'; eauto.
        -- exfalso. apply Hn. left. reflexivity.
    + apply bool_decide_eq_false in Hkw. rewrite !elem_of_cons, IH. split.
      * intros [E|[[Hne H]|[-> [H|[Hn ->]]]]].
        -- injection E as -> ->. left. split; [congruence|left; reflexivity].
        -- left. split; [assumption|right; assumption].
        -- right. split; [reflexivity|]. left. right. assumption.
        -- right. split; [reflexivity|]. right. split; [|reflexivity].
           intros [?|?]; [congruence|contradiction].
      * intros [[Hne [E|H]]|[-> [[E|H]|[Hn ->]]]].
        -- left. assumption.
        -- right. left. split; assumption.
        -- congruence.
        -- right. right. split; [reflexivity|]. left. assumption.
        -- right. right. split; [reflexivity|]. right. split; [|reflexivity].
           intros ?. apply Hn. right. assumption.
Qed.

Lemma Counter_snoc l w : Counter (l ++ [w]) = counter_add w (Counter l).
Proof. unfold Counter. rewrite fold_left_app. reflexivity. Qed.

Lemma Counter_spec l :
  NoDup (Counter l).*1
  ∧ (∀ w, w ∈ (Counter l).*1 <-> w ∈ l)
  ∧ (∀ w n, (w, n) ∈ Counter l <-> w ∈ l ∧ n = occurrences w l).
Proof.
  induction l as [|x l IH] using rev_ind.
  - split; [constructor|]. split; intros; cbn.
    + reflexivity.
    + split; [intros H; inversion H|intros [H _]; inversion H].
  - destruct IH as (ND & Hkeys & Hval).
    rewrite Counter_snoc.
    assert (NoDup (counter_add x (Counter l)).*1) as ND'.
    { rewrite counter_add_keys. case_bool_decide as Hin; [assumption|].
      apply NoDup_app. split; [assumption|]. split.
      - intros y Hy Hy'%list_elem_of_singleton. subst y. contradiction.
      - apply NoDup_singleton. }
    split; [assumption|]. split.
    + intros w. rewrite counter_add_keys, elem_of_app, list_elem_of_singleton.
      case_bool_decide as Hin.
      * rewrite Hkeys. split; [auto|]. intros [?| ->]; [assumption|].
        apply Hkeys. assumption.
      * rewrite elem_of_app, list_elem_of_singleton, Hkeys. reflexivity.
    + intros w n. rewrite counter_add_elem by assumption.
      rewrite elem_of_app, list_elem_of_singleton, occurrences_snoc.
      rewrite !Hval, Hkeys. split.
      * intros [[Hne [Hin ->]]|[-> [[Hin Hn]|[Hn ->]]]].
        -- split; [auto|]. rewrite bool_decide_eq_false_2 by congruence. lia.
        -- split; [auto|]. rewrite bool_decide_eq_true_2 by reflexivity. lia.
        -- split; [auto|]. rewrite bool_decide_eq_true_2 by reflexivity.
           rewrite occurrences_notin by assumption. reflexivity.
      * intros [Hin ->]. case_bool_decide as Hxw.
        -- subst x. right. split; [reflexivity|].
           destruct (decide (w ∈ l)) as [Hl|Hl].
           ++ left. split; [assumption|lia].
           ++ right. split; [assumption|].
              rewrite occurrences_notin by assumption. reflexivity.
        -- left. split; [congruence|]. destruct Hin as [Hin|Hin]; [|congruence].
           split; [assumption|lia].
Qed.

(** ** Facts about the sort key *)

Lemma key_le_spec (x y : entry) :
  key_le x y <->
  (x.1.2 > y.1.2)%Q
  ∨ ((x.1.2 == y.1.2)%Q
     ∧ ((x.2 > y.2)%Z ∨ (x.2 = y.2 ∧ Str.compare x.1.1 y.1.1 <> Gt))).
Proof.
  destruct x as [[wx sx] fx], y as [[wy sy] fy]. unfold key_le, key_compare. cbn [fst snd].
  destruct (Qcompare (- sx) (- sy)) eqn:E.
  - apply Qeq_alt in E.
    destruct (Z.compare_spec (- fx) (- fy)) as [F|F|F].
    + split.
      * intros H. right. split; [Lqa.lra|]. right. split; [lia|assumption].
      * intros [H|[_ [H|[_ H]]]]; [Lqa.lra|lia|assumption].
    + split; [intros _|congruence]. right. split; [Lqa.lra|]. left. lia.
    + split; [congruence|]. intros [H|[_ [H|[H _]]]]; [Lqa.lra|lia|lia].
  - apply Qlt_alt in E. split; [intros _|congruence]. left. Lqa.lra.
  - apply Qgt_alt in E. split; [congruence|]. intros [H|[H _]]; Lqa.lra.
Qed.

#[global] Instance key_le_total : Total key_le.
Proof.
  intros x y. rewrite !key_le_spec.
  destruct (Qlt_le_dec (y.1.2) (x.1.2)) as [H|H]; [left; left; Lqa.lra|].
  destruct (Qlt_le_dec (x.1.2) (y.1.2)) as [H'|H']; [right; left; Lqa.lra|].
  assert (x.1.2 == y.1.2)%Q as E by Lqa.lra.
  destruct (Z.lt_trichotomy x.2 y.2) as [F|[F|F]].
  - right. right. split; [Lqa.lra|]. left. lia.
  - destruct (Str.compare x.1.1 y.1.1) eqn:C.
    + left. right. split; [assumption|]. right. split; [assumption|]. congruence.
    + left. right. split; [assumption|]. right. split; [assumption|]. congruence.
    + right. right. split; [Lqa.lra|]. right. split; [congruence|].
      rewrite compare_antisym, C. simpl. congruence.
  - left. right. split; [assumption|]. left. lia.
Qed.

Lemma compare_le_trans a b c :
  Str.compare a b <> Gt -> Str.compare b c <> Gt -> Str.compare a c <> Gt.
Proof.
  intros H1 H2.
  destruct (Str.compare a b) eqn:E1; [| |congruence].
  - apply compare_eq in E1. subst. assumption.
  - destruct (Str.compare b c) eqn:E2; [| |congruence].
    + apply compare_eq in E2. subst. rewrite E1. congruence.
    + rewrite (compare_lt_trans a b c E1 E2). congruence.
Qed.

#[global] Instance key_le_trans : Transitive key_le.
Proof.
  intros x y z. rewrite !key_le_spec.
  intros [H1|[E1 H1]] [H2|[E2 H2]]; try (left; Lqa.lra).
  right. split; [Lqa.lra|].
  destruct H1 as [H1|[F1 H1]], H2 as [H2|[F2 H2]]; try (left; lia).
  right. split; [lia|]. eapply compare_le_trans; eassumption.
Qed.

(** ** Blank texts have no token *)

Lemma rstrip_with_nil p s : Str.rstrip_with p s = [] -> forallb p s = true.
Proof.
  induction s as [|c s IH]; [reflexivity|]. cbn [Str.rstrip_with fold_right forallb].
  fold (Str.rstrip_with p s). destruct (Str.rstrip_with p s) eqn:E; [|discriminate].
  destruct (p c); [|discriminate]. intros _. simpl. auto.
Qed.

Lemma lstrip_head s c r : Str.lstrip s = c :: r -> Str.is_space c = false.
Proof.
  induction s as [|d s IH]; simpl; [discriminate|].
  destruct (Str.is_space d) eqn:E; [assumption|]. intros [= <- _]. assumption.
Qed.

Lemma lstrip_nil s : Str.lstrip s = [] -> forallb Str.is_space s = true.
Proof.
  induction s as [|d s IH]; simpl; [reflexivity|].
  destruct (Str.is_space d) eqn:E; [simpl; assumption|discriminate].
Qed.

Lemma strip_nil s : Str.strip s = [] <-> forallb Str.is_space s = true.
Proof.
  split; [|apply strip_blank].
  unfold Str.strip, Str.rstrip. intros H%rstrip_with_nil.
  destruct (Str.lstrip s) as [|c r] eqn:E; [apply lstrip_nil; assumption|].
  apply lstrip_head in E. simpl in H. rewrite E in H. discriminate.
Qed.

Lemma space_not_letter c : Str.is_space c = true -> Str.is_letter c = false.
Proof.
  intros H. apply not_true_iff_false. intros L. revert H L.
  unfold Str.is_space, Str.is_letter, Str.is_upper, Str.is_lower.
  rewrite !orb_true_iff, !andb_true_iff, !N.leb_le, !N.eqb_eq. lia.
Qed.

Lemma findall_blank s : forallb Str.is_space s = true -> findall s = [].
Proof.
  unfold findall. induction s as [|c s IH]; [reflexivity|].
  cbn [forallb findall_aux]. intros [Hc Hs]%andb_prop.
  rewrite (space_not_letter c Hc). auto.
Qed.

(** ** The selection loop *)

Lemma top_loop_take (scored : list entry) (top : list pystr) :
  NoDup (top ++ scored.*1.*1) -> (length top < 3)%nat ->
  top_loop scored top = take 3 (top ++ scored.*1.*1).
Proof.
  revert top. induction scored as [|[[w s] f] rest IH]; intros top ND Hlen.
  - cbn. rewrite app_nil_r. symmetry. apply take_ge. lia.
  - cbn [top_loop]. rewrite !fmap_cons in *. cbn [fst] in *.
    assert (w ∉ top) as Hw.
    { apply NoDup_app in ND as (_ & Hd & _). intros Hin.
      apply (Hd w Hin). left. }
    rewrite bool_decide_eq_false_2 by assumption.
    replace (top ++ w :: rest.*1.*1) with ((top ++ [w]) ++ rest.*1.*1) in *
      by (rewrite <- app_assoc; reflexivity).
    destruct (length (top ++ [w]) =? 3)%nat eqn:E.
    + apply Nat.eqb_eq in E. symmetry. apply take_app_length'. symmetry. exact E.
    + apply Nat.eqb_neq in E. apply IH; [assumption|].
      rewrite length_app in *. simpl in *. lia.
Qed.

(** ** The ranking *)

Lemma score_entry_faithful text w :
  faithful text (score_entry (capitalized_set text) (w, frequency text w)).
Proof.
  unfold faithful, score_entry, score. cbn [fst snd].
  split; [reflexivity|].
  destruct (bool_decide (w ∈ capitalized_set text));
    destruct (Nat.leb_spec 7 (length w)).
  - rewrite bool_decide_eq_true_2 by assumption. Lqa.lra.
  - rewrite bool_decide_eq_false_2 by lia. Lqa.lra.
  - rewrite bool_decide_eq_true_2 by assumption. Lqa.lra.
  - rewrite bool_decide_eq_false_2 by lia. Lqa.lra.
Qed.

Lemma score_entry_word caps (c : list (pystr * Z)) :
  (map (score_entry caps) c).*1.*1 = c.*1.
Proof.
  induction c as [|[w f] c IH]; [reflexivity|].
  cbn [map]. rewrite !fmap_cons, IH. reflexivity.
Qed.

Lemma sorted_ranks text (l : list entry) :
  StronglySorted key_le l -> Forall (faithful text) l -> NoDup l.*1.*1 ->
  StronglySorted (ranks_before text) l.*1.*1.
Proof.
  induction 1 as [|x l Hs IH Hx]; intros Hf ND; [constructor|].
  rewrite !fmap_cons in *. apply NoDup_cons in ND as [Hn ND].
  apply Forall_cons in Hf as [Fx Hf].
  constructor; [auto|].
  apply Forall_forall. intros w Hw.
  apply list_elem_of_fmap in Hw as (p & -> & Hp).
  apply list_elem_of_fmap in Hp as (y & -> & Hy).
  pose proof (proj1 (Forall_forall _ _) Hx y Hy) as Hle.
  pose proof (proj1 (Forall_forall _ _) Hf y Hy) as Fy.
  assert (x.1.1 ≠ y.1.1) as Hne.
  { intros E. apply Hn. rewrite E.
    apply list_elem_of_fmap. exists y.1. split; [reflexivity|].
    apply list_elem_of_fmap. exists y. auto. }
  destruct Fx as [Fx1 Fx2], Fy as [Fy1 Fy2].
  apply key_le_spec in Hle. unfold ranks_before.
  rewrite <- Fx1, <- Fy1, <- Fx2, <- Fy2.
  destruct Hle as [H|[E [H|[F H]]]].
  - left. assumption.
  - right. split; [assumption|]. left. lia.
  - right. split; [assumption|]. right. split; [assumption|].
    destruct (Str.compare x.1.1 y.1.1) eqn:C; [|reflexivity|congruence].
    apply compare_eq in C. contradiction.
Qed.

(** ** The result of the extractor *)

Lemma extract_ranked text :
  ∃ ranked : list pystr,
    NoDup ranked
    ∧ (∀ w, w ∈ ranked <-> w ∈ surviving text)
    ∧ StronglySorted (ranks_before text) ranked
    ∧ extract_top3_nouns_like text = take 3 ranked.
Proof.
  unfold extract_top3_nouns_like.
  destruct (bool_decide (text = []) || bool_decide (Str.strip text = [])) eqn:Hblank.
  { exists []. assert (surviving text = []) as Hs.
    { unfold surviving. apply orb_prop in Hblank as [H|H]; apply bool_decide_eq_true in H.
      - subst. reflexivity.
      - apply strip_nil in H. rewrite (findall_blank _ H). reflexivity. }
    rewrite Hs. repeat split; try constructor; auto. }
  clear Hblank. cbv zeta.
  destruct (bool_decide (findall text = [])) eqn:Htok.
  { apply bool_decide_eq_true in Htok.
    exists []. unfold surviving. rewrite Htok. repeat split; try constructor; auto. }
  clear Htok. fold (surviving text).
  destruct (bool_decide (surviving text = [])) eqn:Hcl.
  { apply bool_decide_eq_true in Hcl.
    exists []. rewrite Hcl. repeat split; try constructor; auto. }
  clear Hcl.
  fold (surviving text). fold (capitalized_set text).
  set (scored := map (score_entry (capitalized_set text)) (Counter (surviving text))).
  destruct (Counter_spec (surviving text)) as (ND & Hkeys & Hval).
  pose proof (merge_sort_Permutation key_le scored) as Hperm.
  assert ((merge_sort key_le scored).*1.*1 ≡ₚ (Counter (surviving text)).*1) as Hperm'.
  { rewrite Hperm. unfold scored. rewrite score_entry_word. reflexivity. }
  assert (NoDup (merge_sort key_le scored).*1.*1) as ND' by (rewrite Hperm'; assumption).
  exists (merge_sort key_le scored).*1.*1. split; [assumption|]. split; [|split].
  - intros w. rewrite Hperm'. apply Hkeys.
  - apply sorted_ranks; [apply StronglySorted_merge_sort; apply _| |assumption].
    rewrite Hperm. apply Forall_forall. intros e He.
    apply list_elem_of_In, in_map_iff in He as ([w f] & <- & Hin).
    apply list_elem_of_In, Hval in Hin as [_ ->].
    apply score_entry_faithful.
  - apply (top_loop_take _ []); [assumption|simpl; lia].
Qed.

Lemma capitalized_set_spec text w :
  w ∈ capitalized_set text <->
  ∃ c rest, (c :: rest) ∈ findall text ∧ w = Str.lower (c :: rest)
            ∧ Str.is_upper c = true ∧ Str.islower rest = true.
Proof.
  unfold capitalized_set, caps_of. rewrite list_elem_of_In, in_map_iff. split.
  - intros (tok & <- & Hin). apply list_elem_of_In, list_elem_of_filter in Hin as [Hc Hin].
    unfold capitalized in Hc. apply andb_prop in Hc as [Hu Hl].
    destruct tok as [|c rest]; [discriminate|]. exists c, rest.
    change (drop 1 (c :: rest)) with rest in Hl.
    change (take 1 (c :: rest)) with [c] in Hu.
    unfold Str.isupper in Hu. cbn [forallb existsb] in Hu.
    rewrite orb_false_r in Hu. apply andb_prop in Hu as [_ Hu]. auto.
  - intros (c & rest & Hin & -> & Hu & Hl). exists (c :: rest). split; [reflexivity|].
    apply list_elem_of_In, list_elem_of_filter. split; [|assumption].
    unfold capitalized. change (drop 1 (c :: rest)) with rest.
    change (take 1 (c :: rest)) with [c].
    rewrite Hl, andb_true_r. unfold Str.isupper. cbn [forallb existsb].
    rewrite Hu, orb_false_r, !andb_true_r.
    replace (Str.is_lower c) with false; [reflexivity|].
    symmetry. apply not_true_iff_false. revert Hu. unfold Str.is_upper, Str.is_lower.
    rewrite !andb_true_iff, !N.leb_le. lia.
Qed.

Lemma ranks_before_asym text a b :
  ranks_before text a b -> ranks_before text b a -> False.
Proof.
  unfold ranks_before.
  intros [H1|[E1 [H1|[F1 H1]]]] [H2|[E2 [H2|[F2 H2]]]];
    try Lqa.lra; try lia.
  rewrite compare_antisym, H1 in H2. discriminate.
Qed.

(** The ranking of a given set of tokens is unique: the properties of
    [ranked] in [extract_ranked] determine it. *)
Lemma ranking_unique text (l1 l2 : list pystr) :
  NoDup l1 -> NoDup l2 -> (∀ w, w ∈ l1 <-> w ∈ l2) ->
  StronglySorted (ranks_before text) l1 ->
  StronglySorted (ranks_before text) l2 ->
  l1 = l2.
Proof.
  intros ND1 ND2 Hel S1 S2.
  apply (StronglySorted_unique_strong (ranks_before text)); try assumption.
  - intros x1 x2 _ _ H1 H2. destruct (ranks_before_asym _ _ _ H1 H2).
  - apply NoDup_Permutation; assumption.
Qed.

(** ** Survivors of the cleaning *)

Lemma clean_elem w tokens :
  w ∈ clean tokens -> ∃ tok, tok ∈ tokens ∧ w = base_of tok ∧ dropped w = false.
Proof.
  induction tokens as [|tok rest IH]; cbn [clean]; [intros H; inversion H|].
  destruct (dropped (base_of tok)) eqn:D.
  - intros (t & Ht & E)%IH. exists t. split; [right; assumption|assumption].
  - intros [->|H]%elem_of_cons.
    + exists tok. split; [left|]. auto.
    + apply IH in H as (t & Ht & E). exists t. split; [right; assumption|assumption].
Qed.

Lemma base_of_prefix tok : base_of tok `prefix_of` Str.lower tok.
Proof.
  unfold base_of.
  set (base := Str.rstrip_with _ (Str.rstrip_with _ _)).
  assert (base `prefix_of` Str.lower tok) as Hp.
  { etransitivity; apply rstrip_with_prefix. }
  destruct (_ || _); [|assumption].
  etransitivity; [|exact Hp]. apply prefix_take.
Qed.

Lemma lower_prefix p t : p `prefix_of` Str.lower t -> Str.lower p = p.
Proof.
  intros [k Hk].
  assert (Str.lower p ++ Str.lower k = p ++ k) as E.
  { unfold Str.lower at 1 2. rewrite <- map_app. fold (Str.lower (p ++ k)).
    rewrite <- Hk. apply lower_idem. }
  apply app_inj_1 in E as [E _]; [assumption|].
  unfold Str.lower. apply length_map.
Qed.

Lemma surviving_props text w :
  w ∈ surviving text ->
  Str.lower w = w ∧ (3 <= length w)%nat ∧ (w ∉ _STOPWORDS) ∧ (w ∉ _COMMON_VERBS).
Proof.
  intros (tok & _ & -> & D)%clean_elem.
  split; [eapply lower_prefix, base_of_prefix|].
  unfold dropped in D.
  apply orb_false_elim in D as [D L]. apply orb_false_elim in D as [S V].
  apply bool_decide_eq_false in S. apply bool_decide_eq_false in V.
  apply Nat.ltb_ge in L. auto.
Qed.

Lemma extract_blank text :
  forallb Str.is_space text = true -> extract_top3_nouns_like text = [].
Proof.
  intros H%strip_nil. unfold extract_top3_nouns_like.
  rewrite (bool_decide_eq_true_2 (Str.strip text = [])) by assumption.
  rewrite orb_true_r. reflexivity.
Qed.

(** ** The claims on the keyword extractor *)

(** C1. The extractor returns the first three tokens of the ranking of the
    distinct surviving tokens, where the score of a token is its frequency,
    plus 0.25 when the token is in the capitalized set, plus 0.10 when it
    has at least seven letters; a token ranks before another one when its
    score is higher, at equal scores when its raw frequency is higher, and
    at equal frequencies when it is the smaller string.  The capitalized
    set holds the lowercase forms of the tokens of the text whose first
    letter is uppercase and whose remaining part is lowercase. *)
Theorem extract_top3_is_ranking_prefix (text : pystr) :
  (∀ w, w ∈ capitalized_set text <->
        ∃ c rest, (c :: rest) ∈ findall text ∧ w = Str.lower (c :: rest)
                  ∧ Str.is_upper c = true ∧ Str.islower rest = true)
  ∧ (∀ w, score text w
          == inject_Z (frequency text w)
             + (if bool_decide (w ∈ capitalized_set text) then 25 # 100 else 0)
             + (if bool_decide (7 <= length w)%nat then 10 # 100 else 0))%Q
  ∧ ∃ ranked : list pystr,
      NoDup ranked
      ∧ (∀ w, w ∈ ranked <-> w ∈ surviving text)
      ∧ StronglySorted (ranks_before text) ranked
      ∧ extract_top3_nouns_like text = take 3 ranked.
Proof.
  split; [apply capitalized_set_spec|]. split; [|apply extract_ranked].
  intros w. unfold score. repeat case_bool_decide; Lqa.lra.
Qed.

(** C5. The extractor returns at most three tokens, pairwise distinct, and
    no token at all when the text is empty or holds only whitespace. *)
Theorem extract_top3_at_most_three_distinct (text : pystr) :
  (length (extract_top3_nouns_like text) <= 3)%nat
  ∧ NoDup (extract_top3_nouns_like text)
  ∧ (forallb Str.is_space text = true -> extract_top3_nouns_like text = []).
Proof.
  split; [|split; [|apply extract_blank]];
    destruct (extract_ranked text) as (ranked & ND & _ & _ & ->).
  - rewrite length_take. lia.
  - eapply sublist_NoDup; [exact ND|apply sublist_take].
Qed.

(** C9. Every token returned by the extractor is equal to its own
    lowercasing, has at least three code points, and is neither a stopword
    nor a common verb. *)
Theorem extract_top3_tokens_clean (text : pystr) :
  Forall (fun w => Str.lower w = w ∧ (3 <= length w)%nat
                   ∧ (w ∉ _STOPWORDS) ∧ (w ∉ _COMMON_VERBS))
         (extract_top3_nouns_like text).
Proof.
  destruct (extract_ranked text) as (ranked & _ & Hel & _ & ->).
  apply Forall_forall. intros w Hw.
  apply (surviving_props text), Hel.
  apply elem_of_take in Hw as (i & Hi & _).
  apply list_elem_of_lookup. eauto.
Qed.

(** ** Facts about rounding *)

Import Confidence.
Local Open Scope R_scope.

Lemma round_half_even_near y :
  IZR (round_half_even y) - 1 / 2 <= y <= IZR (round_half_even y) + 1 / 2.
Proof.
  unfold round_half_even.
  destruct (base_Int_part y) as [Hlo Hhi].
  destruct (total_order_T (y - IZR (Int_part y)) (1 / 2)) as [[H|H]|H].
  - Lra.lra.
  - destruct (Z.even (Int_part y)); [|rewrite plus_IZR]; Lra.lra.
  - rewrite plus_IZR. Lra.lra.
Qed.

Lemma round_half_even_ge y k : IZR k <= y -> (k <= round_half_even y)%Z.
Proof.
  intros H. destruct (round_half_even_near y) as [_ Hhi].
  assert (IZR k < IZR (round_half_even y + 1)) as L by (rewrite plus_IZR; Lra.lra).
  apply lt_IZR in L. lia.
Qed.

Lemma round_half_even_le y k : y <= IZR k -> (round_half_even y <= k)%Z.
Proof.
  intros H. destruct (round_half_even_near y) as [Hlo _].
  assert (IZR (round_half_even y) < IZR (k + 1)) as L by (rewrite plus_IZR; Lra.lra).
  apply lt_IZR in L. lia.
Qed.

Lemma round_half_even_within y k :
  IZR k - 1 / 2 < y < IZR k + 1 / 2 -> round_half_even y = k.
Proof.
  intros [Hlo Hhi]. destruct (round_half_even_near y) as [Hlo' Hhi'].
  assert (IZR k < IZR (round_half_even y + 1)) as L by (rewrite plus_IZR; Lra.lra).
  assert (IZR (round_half_even y) < IZR (k + 1)) as L' by (rewrite plus_IZR; Lra.lra).
  apply lt_IZR in L. apply lt_IZR in L'. lia.
Qed.

Lemma round_half_even_IZR k : round_half_even (IZR k) = k.
Proof. apply round_half_even_within. Lra.lra. Qed.

(** A number of thousandths is its own rounding to three places. *)
Lemma round_thousandths k : round (IZR k / 1000) 3 = IZR k / 1000.
Proof.
  unfold round. replace (10 ^ 3) with 1000 by (simpl; Lra.lra).
  replace (IZR k / 1000 * 1000) with (IZR k) by Lra.lra.
  rewrite round_half_even_IZR. reflexivity.
Qed.

Lemma round3_thousandths x : ∃ k, round x 3 = IZR k / 1000.
Proof.
  exists (round_half_even (x * 10 ^ 3)). unfold round.
  replace (10 ^ 3) with 1000 by (simpl; Lra.lra). reflexivity.
Qed.

Lemma round3_ge x k : IZR k / 1000 <= x -> IZR k / 1000 <= round x 3.
Proof.
  intros H. unfold round. replace (10 ^ 3) with 1000 by (simpl; Lra.lra).
  assert (k <= round_half_even (x * 1000))%Z as L
    by (apply round_half_even_ge; Lra.lra).
  apply IZR_le in L. Lra.lra.
Qed.

Lemma round3_le x k : x <= IZR k / 1000 -> round x 3 <= IZR k / 1000.
Proof.
  intros H. unfold round. replace (10 ^ 3) with 1000 by (simpl; Lra.lra).
  assert (round_half_even (x * 1000) <= k)%Z as L
    by (apply round_half_even_le; Lra.lra).
  apply IZR_le in L. Lra.lra.
Qed.

(** ** Facts about the decimal logarithm *)

Lemma ln_10_pos : 0 < ln 10.
Proof. rewrite <- ln_1. apply ln_increasing; Lra.lra. Qed.

Lemma log10_ge_1 x : 10 <= x -> 1 <= log10 x.
Proof.
  intros H. unfold log10. pose proof ln_10_pos as P.
  assert (ln 10 <= ln x) as L.
  { destruct H as [H| <-]; [left; apply ln_increasing; Lra.lra|right; reflexivity]. }
  apply (Rmult_le_reg_r (ln 10)); [assumption|].
  replace (ln x / ln 10 * ln 10) with (ln x) by (field; Lra.lra). Lra.lra.
Qed.

(** Bounds on [log10 x] from integer powers: [10^p < x^q] gives
    [p / q < log10 x], and [x^q < 10^p] gives [log10 x < p / q]. *)
Lemma log10_gt_ratio (x : Z) (p q : nat) :
  (0 < x)%Z -> (0 < q)%nat -> (10 ^ Z.of_nat p < x ^ Z.of_nat q)%Z ->
  INR p / INR q < log10 (IZR x).
Proof.
  intros Hx Hq Hpow. pose proof ln_10_pos as P.
  assert (0 < IZR x) as Hx' by (apply IZR_lt; assumption).
  assert (0 < INR q) as Hq' by (apply lt_0_INR; assumption).
  apply IZR_lt in Hpow. rewrite <- !pow_IZR in Hpow.
  apply ln_increasing in Hpow; [|apply pow_lt; Lra.lra].
  rewrite !ln_pow in Hpow by Lra.lra.
  unfold log10.
  apply (Rmult_lt_reg_r (ln 10 * INR q)); [apply Rmult_lt_0_compat; assumption|].
  replace (INR p / INR q * (ln 10 * INR q)) with (INR p * ln 10) by (field; Lra.lra).
  replace (ln (IZR x) / ln 10 * (ln 10 * INR q)) with (INR q * ln (IZR x)) by (field; Lra.lra).
  assumption.
Qed.

Lemma log10_lt_ratio (x : Z) (p q : nat) :
  (0 < x)%Z -> (0 < q)%nat -> (x ^ Z.of_nat q < 10 ^ Z.of_nat p)%Z ->
  log10 (IZR x) < INR p / INR q.
Proof.
  intros Hx Hq Hpow. pose proof ln_10_pos as P.
  assert (0 < IZR x) as Hx' by (apply IZR_lt; assumption).
  assert (0 < INR q) as Hq' by (apply lt_0_INR; assumption).
  apply IZR_lt in Hpow. rewrite <- !pow_IZR in Hpow.
  apply ln_increasing in Hpow; [|apply pow_lt; Lra.lra].
  rewrite !ln_pow in Hpow by Lra.lra.
  unfold log10.
  apply (Rmult_lt_reg_r (ln 10 * INR q)); [apply Rmult_lt_0_compat; assumption|].
  replace (INR p / INR q * (ln 10 * INR q)) with (INR p * ln 10) by (field; Lra.lra).
  replace (ln (IZR x) / ln 10 * (ln 10 * INR q)) with (INR q * ln (IZR x)) by (field; Lra.lra).
  assumption.
Qed.

Lemma log10_14_bounds : 1.145 < log10 14 < 1.155.
Proof.
  assert (INR 200 = 200) as E200 by (rewrite INR_IZR_INZ; reflexivity).
  assert (INR 229 = 229) as E229 by (rewrite INR_IZR_INZ; reflexivity).
  assert (INR 231 = 231) as E231 by (rewrite INR_IZR_INZ; reflexivity).
  split.
  - replace 1.145 with (INR 229 / INR 200) by (rewrite E200, E229; Lra.lra).
    apply log10_gt_ratio; [lia|lia|]. vm_compute. reflexivity.
  - replace 1.155 with (INR 231 / INR 200) by (rewrite E200, E231; Lra.lra).
    apply log10_lt_ratio; [lia|lia|]. vm_compute. reflexivity.
Qed.

Lemma raw_confidence_bounds text ok :
  0.65 <= raw_confidence text ok <= 0.95.
Proof.
  unfold raw_confidence. cbv zeta.
  set (n := Z.max 1 (word_count text)).
  assert (1 <= log10 (IZR (n + 9))) as L.
  { apply log10_ge_1. replace 10 with (IZR 10) by reflexivity.
    apply IZR_le. unfold n. lia. }
  assert (0.10 <= Rmin 0.30 (log10 (IZR (n + 9)) / 10.0) <= 0.30) as B.
  { split; [apply Rmin_glb; Lra.lra|apply Rmin_l]. }
  destruct ok; Lra.lra.
Qed.

Lemma confidence_is_round text ok :
  _confidence_heuristic text ok
  = Rmax 0.50 (Rmin 0.98 (round (raw_confidence text ok) 3)).
Proof. reflexivity. Qed.

Lemma round_raw_bounds text ok :
  0.65 <= round (raw_confidence text ok) 3 <= 0.95.
Proof.
  destruct (raw_confidence_bounds text ok) as [Lo Hi]. split.
  - replace 0.65 with (IZR 650 / 1000) by Lra.lra. apply round3_ge. Lra.lra.
  - replace 0.95 with (IZR 950 / 1000) by Lra.lra. apply round3_le. Lra.lra.
Qed.

(** ** The claims on the confidence heuristic *)

Lemma word_count_sample :
  Z.max 1 (word_count (py "one two three four five")) = 5%Z.
Proof. vm_compute. reflexivity. Qed.

Lemma confidence_sample :
  _confidence_heuristic (py "one two three four five") true = 0.765.
Proof.
  unfold _confidence_heuristic. cbv zeta. rewrite word_count_sample.
  change (IZR (5 + 9)) with 14.
  destruct log10_14_bounds as [Lo Hi].
  rewrite (Rmin_right 0.30) by Lra.lra.
  assert (round (0.55 + log10 14 / 10.0 + 0.10) 3 = 0.765) as ->.
  { unfold round. replace (10 ^ 3) with 1000 by (simpl; Lra.lra).
    rewrite (round_half_even_within _ 765) by (split; Lra.lra). Lra.lra. }
  rewrite Rmin_right by Lra.lra. rewrite Rmax_right by Lra.lra. reflexivity.
Qed.

Lemma confidence_matches_spec text ok :
  _confidence_heuristic text ok = ConfidenceSpec.confidence text ok.
Proof.
  unfold _confidence_heuristic, ConfidenceSpec.confidence, ConfidenceSpec.clamp,
    ConfidenceSpec.round3, ConfidenceSpec.wordCount, word_count. cbv zeta.
  replace (IZR (Z.max 1 (Z.of_nat (length (Str.split text))) + 9))
    with (INR (Nat.max 1 (length (Str.split text))) + 9).
  - replace 10.0 with 10 by Lra.lra. reflexivity.
  - rewrite plus_IZR, INR_IZR_INZ, Nat2Z.inj_max. reflexivity.
Qed.

(** C3. The confidence heuristic is
    clamp([0.50, 0.98], round3(0.55 + min(0.30, log10(max(1, wordCount) + 9) / 10)
    + (0.10 if the external call succeeded else 0.0))), and its value on
    "one two three four five" with a successful external call is 0.765. *)
Theorem confidence_heuristic_formula :
  (∀ text ok, _confidence_heuristic text ok = ConfidenceSpec.confidence text ok)
  ∧ ConfidenceSpec.confidence (py "one two three four five") true = 0.765
  ∧ _confidence_heuristic (py "one two three four five") true = 0.765.
Proof.
  split; [apply confidence_matches_spec|].
  rewrite <- confidence_matches_spec. split; apply confidence_sample.
Qed.

(** C4. The confidence lies in [0.50, 0.98] and is its own rounding to three
    decimal places. *)
Theorem confidence_clamped_and_rounded (text : pystr) (ok : bool) :
  0.50 <= _confidence_heuristic text ok <= 0.98
  ∧ round (_confidence_heuristic text ok) 3 = _confidence_heuristic text ok.
Proof.
  rewrite confidence_is_round.
  destruct (round3_thousandths (raw_confidence text ok)) as [k ->].
  split.
  - split; [apply Rmax_l|].
    apply Rmax_lub; [Lra.lra|apply Rmin_l].
  - unfold Rmax, Rmin.
    repeat match goal with |- context [Rle_dec ?a ?b] => destruct (Rle_dec a b) end.
    all: first [ apply round_thousandths
               | replace 0.98 with (IZR 980 / 1000) by Lra.lra; apply round_thousandths
               | replace 0.50 with (IZR 500 / 1000) by Lra.lra; apply round_thousandths ].
Qed.

(** C8. The rounded raw confidence already lies in [0.65, 0.95]: the two
    clamps leave it as it is, and the confidence lies in [0.65, 0.95]. *)
Theorem confidence_clamp_is_identity (text : pystr) (ok : bool) :
  0.65 <= round (raw_confidence text ok) 3 <= 0.95
  ∧ _confidence_heuristic text ok = round (raw_confidence text ok) 3
  ∧ 0.65 <= _confidence_heuristic text ok <= 0.95.
Proof.
  pose proof (round_raw_bounds text ok) as [Lo Hi].
  assert (_confidence_heuristic text ok = round (raw_confidence text ok) 3) as E.
  { rewrite confidence_is_round.
    rewrite Rmin_right by Lra.lra. rewrite Rmax_right by Lra.lra. reflexivity. }
  rewrite E. auto.
Qed.

Local Close Scope R_scope.

(** ** Facts about the in-memory backend *)

Section BackendFacts.

Variable str_lower : pystr -> pystr.
Variable uuid4 : nat -> pystr.

Import InMemoryDB StorageSpec.

Lemma hit_exact_match topic r :
  hit str_lower (Str.strip (str_lower topic)) r = true
  <-> exact_match str_lower topic r.
Proof.
  unfold hit, exact_match. cbv zeta.
  rewrite orb_true_iff, !bool_decide_eq_true, Exists_exists.
  setoid_rewrite elem_of_app. rewrite !list_elem_of_In, !in_map_iff.
  setoid_rewrite list_elem_of_In. split.
  - intros [(e & E & Hin)|(e & E & Hin)]; exists e; auto.
  - intros (e & [Hin|Hin] & E); [left|right]; exists e; auto.
Qed.

Lemma search_loop_filter h topic rows results :
  search_loop str_lower h (Str.strip (str_lower topic)) rows results
  = results ++ filter (selected str_lower h topic) rows.
Proof.
  revert results. induction rows as [|l rows IH]; intros results.
  - cbn. rewrite app_nil_r. reflexivity.
  - cbn [search_loop]. rewrite filter_cons.
    destruct (decide (selected str_lower h topic l)) as [S|S];
      unfold selected in S; destruct (h !! l) as [d|] eqn:E.
    + apply hit_exact_match in S. rewrite S, IH, <- app_assoc. reflexivity.
    + destruct S.
    + rewrite <- hit_exact_match in S. apply not_true_is_false in S.
      rewrite S. apply IH.
    + apply IH.
Qed.

Lemma insert_analysis_effect row r w :
  heap w !! row = Some r ->
  let item := fresh (dom (heap w)) in
  let stored :=
    if falsy (row_id r) then set_id (Some (uuid4 (drawn w))) r else r in
  heap w !! item = None
  ∧ insert_analysis uuid4 row w
    = Some (item,
            mkWorld (<[item := stored]> (heap w)) (_rows w ++ [item])
                    (if falsy (row_id r) then S (drawn w) else drawn w)
                    (calls w)).
Proof.
  intros Hrow item stored.
  assert (heap w !! item = None) as Hfresh.
  { apply not_elem_of_dom. apply is_fresh. }
  split; [assumption|].
  unfold insert_analysis. rewrite Hrow. unfold alloc. fold item.
  unfold stored. destruct (falsy (row_id r)); cbn.
  - rewrite insert_insert_eq. reflexivity.
  - reflexivity.
Qed.

End BackendFacts.

(** ** [Str.lower] has the properties of [str.lower] that the backend
       relies on *)

Lemma lower_cp_space c : Str.is_space (Str.lower_cp c) = Str.is_space c.
Proof.
  unfold Str.lower_cp. destruct (Str.is_upper c) eqn:U; [|reflexivity].
  unfold Str.is_upper in U. apply andb_prop in U as [A B].
  apply N.leb_le in A. apply N.leb_le in B.
  transitivity false; [|symmetry]; apply not_true_iff_false;
    unfold Str.is_space;
    rewrite !orb_true_iff, !andb_true_iff, !N.leb_le, !N.eqb_eq; lia.
Qed.

Lemma lower_lstrip s : Str.lstrip (Str.lower s) = Str.lower (Str.lstrip s).
Proof.
  induction s as [|c s IH]; [reflexivity|].
  cbn [Str.lower map Str.lstrip]. rewrite lower_cp_space.
  destruct (Str.is_space c); [exact IH|reflexivity].
Qed.

Lemma lower_rstrip s : Str.rstrip (Str.lower s) = Str.lower (Str.rstrip s).
Proof.
  unfold Str.rstrip. induction s as [|c s IH]; [reflexivity|].
  cbn [Str.lower map Str.rstrip_with fold_right].
  fold (Str.lower s). fold (Str.rstrip_with Str.is_space (Str.lower s)).
  fold (Str.rstrip_with Str.is_space s). rewrite IH, lower_cp_space.
  destruct (Str.rstrip_with Str.is_space s); [|reflexivity].
  cbn. destruct (Str.is_space c); reflexivity.
Qed.

Lemma lower_strip s : Str.strip (Str.lower s) = Str.lower (Str.strip s).
Proof. unfold Str.strip. rewrite lower_lstrip, lower_rstrip. reflexivity. Qed.

Lemma lower_nil s : Str.lower s = [] <-> s = [].
Proof. destruct s; cbn; split; congruence. Qed.

Lemma lower_ascii s : Forall (fun c => c < 128) s -> Str.lower s = Str.lower s.
Proof. reflexivity. Qed.

(** ** The claims on the in-memory backend *)

Section BackendClaims.

Import InMemoryDB StorageSpec.

Variable str_lower : pystr -> pystr.
Variable uuid4 : nat -> pystr.

(** What the backend relies on about [str.lower]: whitespace at both ends
    stays as it is, only the empty string has an empty lowercase form, and
    on the ASCII range only the letters A to Z change. *)
Hypothesis str_lower_strip :
  ∀ s, Str.strip (str_lower s) = str_lower (Str.strip s).
Hypothesis str_lower_nil : ∀ s, str_lower s = [] <-> s = [].
Hypothesis str_lower_ascii :
  ∀ s, Forall (fun c => c < 128) s -> str_lower s = Str.lower s.

Lemma query_blank topic :
  Str.strip (str_lower topic) = [] <-> forallb Str.is_space topic = true.
Proof using str_lower_strip str_lower_nil.
  rewrite str_lower_strip, str_lower_nil. apply strip_nil.
Qed.

Lemma search_blank topic w :
  forallb Str.is_space topic = true -> search str_lower topic w = _rows w.
Proof using str_lower_strip str_lower_nil.
  intros H%query_blank. unfold search. rewrite H. reflexivity.
Qed.

Lemma search_filter topic w :
  Str.strip (str_lower topic) ≠ [] ->
  search str_lower topic w = filter (selected str_lower (heap w) topic) (_rows w).
Proof.
  intros H. unfold search. cbv zeta. rewrite bool_decide_eq_false_2 by assumption.
  apply search_loop_filter.
Qed.

(** C2. A blank query returns every stored record in insertion order; any
    other query returns, in insertion order, the stored records one of
    whose topics or keywords equals the trimmed query up to letter case.
    The keyword "air" is not matched by the query "ai", and is matched by
    the query "AIR". *)
Theorem search_exact_match_contract (topic : pystr) (w : World) :
  (forallb Str.is_space topic = true -> search str_lower topic w = _rows w)
  ∧ (forallb Str.is_space topic = false ->
     search str_lower topic w
     = filter (selected str_lower (heap w) topic) (_rows w))
  ∧ (∀ r, row_keywords r = [py "air"] ->
          Forall (fun e => str_lower e ≠ py "ai") (row_topics r) ->
          ¬ exact_match str_lower (py "ai") r
          ∧ exact_match str_lower (py "AIR") r).
Proof using str_lower_strip str_lower_nil str_lower_ascii.
  split; [apply search_blank|]. split.
  - intros H. apply search_filter. rewrite query_blank, H. discriminate.
  - intros r Hk Ht.
    assert (∀ s, Forall (fun c => c < 128) s -> Str.strip (str_lower s) = Str.strip (Str.lower s)) as E.
    { intros s Hs. rewrite str_lower_ascii by assumption. reflexivity. }
    unfold exact_match. rewrite Hk, !Exists_app, !Exists_cons, !Exists_nil.
    rewrite !E by (vm_compute; repeat constructor).
    rewrite (str_lower_ascii (py "air")) by (vm_compute; repeat constructor).
    split.
    + intros [H|[H|[]]]; [|vm_compute in H; discriminate].
      apply Exists_exists in H as (e & He & Hq).
      apply (proj1 (Forall_forall _ _) Ht e He). rewrite Hq. reflexivity.
    + right. left. reflexivity.
Qed.

(** C10. The insertion leaves every dict object that exists as it is (the
    row of the caller and the records stored before), appends the
    reference of one new dict object to the store, and the new object
    agrees with the row of the caller on every field but the id, which is
    a newly drawn uuid when the row has no id or a falsy one and the id of
    the row otherwise. *)
Theorem insert_analysis_frame (w : World) (row : loc) (r : Row) :
  heap w !! row = Some r ->
  ∃ item w' stored,
    insert_analysis uuid4 row w = Some (item, w')
    ∧ heap w !! item = None
    ∧ (∀ l d, heap w !! l = Some d -> heap w' !! l = Some d)
    ∧ heap w' !! row = Some r
    ∧ _rows w' = _rows w ++ [item]
    ∧ heap w' !! item = Some stored
    ∧ same_but_id stored r
    ∧ row_id stored
      = (if falsy (row_id r) then Some (uuid4 (drawn w)) else row_id r).
Proof.
  intros Hrow. destruct (insert_analysis_effect uuid4 row r w Hrow) as [Hfresh Heq].
  eexists _, _, _. split; [exact Heq|]. cbn [heap _rows].
  assert (∀ l d, heap w !! l = Some d ->
                 <[fresh (dom (heap w)) := (if falsy (row_id r)
                     then set_id (Some (uuid4 (drawn w))) r else r)]> (heap w) !! l
                 = Some d) as Hframe.
  { intros l d Hl. rewrite lookup_insert_ne; [assumption|]. congruence. }
  split; [assumption|]. split; [exact Hframe|]. split; [apply Hframe; assumption|].
  split; [reflexivity|]. split; [apply lookup_insert_eq|].
  destruct (falsy (row_id r)); repeat split; reflexivity.
Qed.

(** C7, as amended.  When the keyword [k] of the record has no whitespace at
    its ends, the search for any spelling of [k] in another letter case,
    after the insertion of the record, returns the stored record. *)
Theorem roundtrip_trimmed_keyword (w : World) (row : loc) (r : Row) (k k' : pystr) :
  heap w !! row = Some r ->
  k ∈ row_keywords r ->
  forallb Str.is_space k = false ->
  Str.strip k = k ->
  str_lower k' = str_lower k ->
  ∃ item w' stored,
    insert_analysis uuid4 row w = Some (item, w')
    ∧ heap w' !! item = Some stored
    ∧ ∃ l found, l ∈ search str_lower k' w'
                 ∧ heap w' !! l = Some found
                 ∧ row_id found = row_id stored.
Proof using str_lower_strip.
  intros Hrow Hk _ Hstrip Hcase.
  destruct (insert_analysis_effect uuid4 row r w Hrow) as [Hfresh Heq].
  eexists _, _, _. split; [exact Heq|]. cbn [heap].
  split; [apply lookup_insert_eq|].
  eexists _, _. split; [|split; [apply lookup_insert_eq|reflexivity]].
  unfold search. cbv zeta. cbn [heap _rows].
  case_bool_decide as Hq.
  - apply elem_of_app. right. left.
  - rewrite search_loop_filter. rewrite app_nil_l.
    apply list_elem_of_filter. split; [|apply elem_of_app; right; left].
    unfold selected. rewrite lookup_insert_eq.
    unfold exact_match. apply Exists_exists. exists k. split.
    + apply elem_of_app. right. destruct (falsy (row_id r)); exact Hk.
    + rewrite Hcase, str_lower_strip, Hstrip. reflexivity.
Qed.

End BackendClaims.

(** ** The backend on sample data *)

Import InMemoryDB StorageSpec.

Lemma search_exact_match_contract_witness :
  search Str.lower (py "  ") (Sample.stored_world Sample.air) = [1%positive]
  ∧ search Str.lower (py "ai") (Sample.stored_world Sample.air)
    = filter (selected Str.lower {[ 1%positive := Sample.air ]} (py "ai"))
             [1%positive]
  ∧ ¬ exact_match Str.lower (py "ai") Sample.air
  ∧ exact_match Str.lower (py "AIR") Sample.air.
Proof.
  pose proof (search_exact_match_contract Str.lower lower_strip lower_nil
                lower_ascii (py "  ") (Sample.stored_world Sample.air))
    as (H1 & _ & _).
  pose proof (search_exact_match_contract Str.lower lower_strip lower_nil
                lower_ascii (py "ai") (Sample.stored_world Sample.air))
    as (_ & H2 & H3).
  split; [apply H1; reflexivity|]. split; [apply H2; reflexivity|].
  apply H3; [reflexivity|].
  repeat constructor. vm_compute. discriminate.
Defined.

Lemma insert_analysis_frame_witness :
  ∃ item w' stored,
    insert_analysis Sample.uuid4 1%positive (Sample.world_with Sample.padded)
    = Some (item, w')
    ∧ heap (Sample.world_with Sample.padded) !! item = None
    ∧ (∀ l d, heap (Sample.world_with Sample.padded) !! l = Some d ->
              heap w' !! l = Some d)
    ∧ heap w' !! 1%positive = Some Sample.padded
    ∧ _rows w' = _rows (Sample.world_with Sample.padded) ++ [item]
    ∧ heap w' !! item = Some stored
    ∧ same_but_id stored Sample.padded
    ∧ row_id stored
      = (if falsy (row_id Sample.padded)
         then Some (Sample.uuid4 (drawn (Sample.world_with Sample.padded)))
         else row_id Sample.padded).
Proof.
  apply (insert_analysis_frame Sample.uuid4 (Sample.world_with Sample.padded)
           1%positive Sample.padded).
  reflexivity.
Defined.

Lemma roundtrip_trimmed_keyword_witness :
  ∃ item w' stored,
    insert_analysis Sample.uuid4 1%positive (Sample.world_with Sample.air)
    = Some (item, w')
    ∧ heap w' !! item = Some stored
    ∧ ∃ l found, l ∈ search Str.lower (py "AIR") w'
                 ∧ heap w' !! l = Some found
                 ∧ row_id found = row_id stored.
Proof.
  apply (roundtrip_trimmed_keyword Str.lower Sample.uuid4 lower_strip
           (Sample.world_with Sample.air) 1%positive Sample.air
           (py "air") (py "AIR")).
  - reflexivity.
  - apply list_elem_of_here.
  - reflexivity.
  - reflexivity.
  - reflexivity.
Defined.

Lemma padded_never_found :
  ∃ item w',
    insert_analysis Sample.uuid4 1%positive (Sample.world_with Sample.padded)
    = Some (item, w')
    ∧ search Str.lower (py " ai") w' = [].
Proof.
  destruct (insert_analysis_effect Sample.uuid4 1%positive Sample.padded
              (Sample.world_with Sample.padded) eq_refl) as [_ Heq].
  eexists _, _. split; [exact Heq|].
  unfold search, Sample.world_with. cbv zeta. cbn [heap _rows app].
  rewrite bool_decide_eq_false_2 by (vm_compute; discriminate).
  rewrite search_loop_filter, filter_cons, filter_nil.
  destruct (decide _) as [Hsel|_]; [exfalso|reflexivity].
  unfold selected in Hsel. rewrite lookup_insert_eq in Hsel.
  unfold exact_match in Hsel. cbn in Hsel.
  apply Exists_cons in Hsel as [E|Hsel]; [vm_compute in E; discriminate|].
  apply Exists_cons in Hsel as [E|Hsel]; [vm_compute in E; discriminate|].
  inversion Hsel.
Qed.

(** C7, as stated, fails: the keyword " ai", with a leading space, is not
    found by the search for " ai" after the insertion, since the query is
    trimmed and the entries of the record are not. *)
Lemma roundtrip_fails_on_padded_keyword :
  (∃ item w',
     insert_analysis Sample.uuid4 1%positive (Sample.world_with Sample.padded)
     = Some (item, w')
     ∧ py " ai" ∈ row_keywords Sample.padded
     ∧ search Str.lower (py " ai") w' = [])
  ∧ ¬ roundtrip_as_stated Str.lower Sample.uuid4.
Proof.
  destruct padded_never_found as (item & w' & Hins & Hsearch).
  split.
  - exists item, w'. split; [assumption|]. split; [apply list_elem_of_here|assumption].
  - intros H.
    destruct (H (Sample.world_with Sample.padded) 1%positive Sample.padded
                (py " ai") (py " ai"))
      as (item' & w'' & stored & Hins' & _ & l & found & Hl & _).
    + reflexivity.
    + apply list_elem_of_here.
    + reflexivity.
    + reflexivity.
    + rewrite Hins in Hins'. injection Hins' as <- <-.
      rewrite Hsearch in Hl. inversion Hl.
Qed.

(** ** Facts about the endpoint *)

Section RouterFacts.

Import Analyze AnalyzeSpec.

Variable uuid4 : nat -> pystr.
Variable summarize : nat -> pystr -> option pystr.
Variable extract_metadata : nat -> pystr -> option Meta.

Lemma call_llm_frame t w out w' :
  call_llm summarize extract_metadata t w = (out, w') ->
  heap w' = heap w ∧ _rows w' = _rows w ∧ drawn w' = drawn w.
Proof.
  unfold call_llm.
  destruct (summarize (calls w) t); [destruct (extract_metadata _ t)|];
    intros [= <- <-]; auto.
Qed.

Lemma call_llm_fails t w :
  llm_fails summarize extract_metadata t w ->
  fst (call_llm summarize extract_metadata t w)
  = (fallback_summary, None, fallback_topics, neutral, false).
Proof.
  unfold llm_fails, call_llm. intros [H|H].
  - rewrite H. reflexivity.
  - destruct (summarize (calls w) t); [|reflexivity].
    cbn [tick calls]. rewrite H. reflexivity.
Qed.

Lemma analyze_single_ok text w :
  Str.strip text ≠ [] ->
  ∃ a w1,
    _analyze_single uuid4 summarize extract_metadata text w = (inr a, w1)
    ∧ persisted a w w1
    ∧ row_text a = Str.strip text
    ∧ (llm_fails summarize extract_metadata (Str.strip text) w ->
       degraded (Str.strip text) a).
Proof.
  intros Hne. unfold _analyze_single. cbv zeta.
  rewrite bool_decide_eq_false_2 by assumption.
  pose proof (call_llm_fails (Str.strip text) w) as Hfail.
  destruct (call_llm summarize extract_metadata (Str.strip text) w)
    as [[[[[summary title] topics] sentiment] llm_ok] w0] eqn:Hllm.
  apply call_llm_frame in Hllm as (Hh & Hr & Hd).
  unfold alloc.
  set (row := mkRow None title summary topics sentiment
                    (extract_top3_nouns_like (Str.strip text))
                    (_confidence_heuristic (Str.strip text) llm_ok)
                    (Str.strip text)).
  set (l := fresh (dom (heap w0))).
  set (w2 := set_heap (<[l := row]> (heap w0)) w0).
  assert (heap w2 !! l = Some row) as Hl by apply lookup_insert_eq.
  destruct (insert_analysis_effect uuid4 l row w2 Hl) as [_ Heq].
  rewrite Heq. cbn [heap]. rewrite lookup_insert_eq.
  eexists _, _. split; [reflexivity|]. split; [|split; [reflexivity|]].
  - eexists. subst w2. cbn [_rows heap set_heap]. rewrite Hr. split; [reflexivity|].
    apply lookup_insert_eq.
  - intros F. specialize (Hfail F). cbn [fst] in Hfail.
    injection Hfail as -> -> -> -> ->.
    repeat split; reflexivity.
Qed.

Lemma analyze_loop_ok items results w :
  Forall (fun t => Str.strip t ≠ []) items ->
  ∃ results' w',
    analyze_loop uuid4 summarize extract_metadata items results w
    = (inr (results ++ results'), w')
    ∧ length results' = length items
    ∧ isolated uuid4 summarize extract_metadata w items results' w'.
Proof.
  intros H. revert results w.
  induction H as [|t items Ht _ IH]; intros results w.
  - exists [], w. rewrite app_nil_r. repeat split.
  - destruct (analyze_single_ok t w Ht) as (a & w1 & Ha & Hp & Ht' & Hd).
    destruct (IH (results ++ [a]) w1) as (rs & w' & Hloop & Hlen & Hiso).
    exists (a :: rs), w'. cbn [analyze_loop]. rewrite Ha, Hloop, <- app_assoc.
    split; [reflexivity|]. split; [simpl; lia|].
    cbn [isolated]. exists w1. auto.
Qed.

(** C6. Whatever the external capability does, every text of a request is
    analysed: the results hold one record per text, in order; each record
    is persisted; a text on which the capability fails gets the fallback
    summary, no title, the topics general, unknown and llm-failure, the
    sentiment neutral and the confidence of a failed call; and the texts
    after it are analysed all the same. *)
Theorem analyze_isolates_llm_failure (payload : AnalyzeRequest)
  (items : list pystr) (w : World) :
  items_of payload = inr items ->
  Forall (fun t => Str.strip t ≠ []) items ->
  ∃ results w',
    analyze uuid4 summarize extract_metadata payload w = (inr results, w')
    ∧ length results = length items
    ∧ isolated uuid4 summarize extract_metadata w items results w'.
Proof.
  intros Hitems Hne. unfold analyze. rewrite Hitems.
  destruct (analyze_loop_ok items [] w Hne) as (rs & w' & Hloop & Hlen & Hiso).
  exists rs, w'. auto.
Qed.

End RouterFacts.

Lemma analyze_isolates_llm_failure_witness :
  ∃ results w',
    Analyze.analyze Sample.uuid4 Sample.summarize Sample.extract_metadata
      Sample.batch Sample.empty_world = (inr results, w')
    ∧ length results = 2%nat
    ∧ AnalyzeSpec.isolated Sample.uuid4 Sample.summarize Sample.extract_metadata
        Sample.empty_world
        [py "First text about AI."; py "Second text about databases."]
        results w'.
Proof.
  apply (analyze_isolates_llm_failure Sample.uuid4 Sample.summarize
           Sample.extract_metadata Sample.batch
           [py "First text about AI."; py "Second text about databases."]
           Sample.empty_world).
  - reflexivity.
  - repeat constructor; vm_compute; discriminate.
Defined.

(** ** The tokens are ASCII words *)

Lemma findall_aux_word_chars cur s :
  Forall (fun c => Str.is_word_char c = true) cur ->
  Forall (Forall (fun c => Str.is_word_char c = true)) (findall_aux cur s).
Proof.
  revert cur. induction s as [|c s IH]; intros cur Hcur.
  - cbn. unfold emit. destruct (2 <=? length cur)%nat; repeat constructor; assumption.
  - cbn [findall_aux]. destruct cur as [|x cur].
    + destruct (Str.is_letter c) eqn:L; [|apply IH; constructor].
      apply IH. constructor; [|constructor].
      unfold Str.is_word_char. rewrite L. reflexivity.
    + destruct (Str.is_word_char c) eqn:W.
      * apply IH. apply Forall_app. split; [assumption|]. repeat constructor; assumption.
      * apply Forall_app. split; [|apply IH; constructor].
        unfold emit. destruct (2 <=? length (x :: cur))%nat;
          [constructor; [assumption|constructor]|constructor].
Qed.

(** Every token is made of ASCII letters, hyphens and apostrophes, on which
    [Str.lower] is [str.lower]. *)
Lemma findall_word_chars text :
  Forall (Forall (fun c => Str.is_word_char c = true)) (findall text).
Proof. apply findall_aux_word_chars. constructor. Qed.

(** ** The extractor on sample texts *)

Example sample_keywords :
  extract_top3_nouns_like Sample.text
  = [py "model"; py "developers"; py "powerful"].
Proof. vm_compute. reflexivity. Qed.

Example possessive_keywords :
  extract_top3_nouns_like (py "The dog's bone; Dogs' bones. A--")
  = [py "a--"; py "bone"; py "bones"].
Proof. vm_compute. reflexivity. Qed.

Lemma extract_top3_at_most_three_distinct_witness :
  extract_top3_nouns_like (py "   ") = [].
Proof.
  apply (extract_top3_at_most_three_distinct (py "   ")). reflexivity.
Defined.


(** ** More on the tokenizer *)

Lemma findall_aux_tokens cur s :
  cur = [] ∨ (∃ x r, cur = x :: r ∧ Str.is_letter x = true
                     ∧ Forall (fun d => Str.is_word_char d = true) r) ->
  Forall (fun tok => word_shaped tok ∧ ∃ a b, cur ++ s = a ++ tok ++ b)
         (findall_aux cur s).
Proof.
  revert cur. induction s as [|c s IH]; intros cur Hcur.
  - cbn. unfold emit. destruct (Nat.leb_spec 2 (length cur)); [|constructor].
    constructor; [|constructor]. split.
    + destruct Hcur as [->|(x & r & -> & Hx & Hr)]; [simpl in *; lia|].
      exists x, r. repeat split; try assumption.
      destruct r; [simpl in *; lia|discriminate].
    + exists [], []. rewrite !app_nil_r. reflexivity.
  - cbn [findall_aux]. destruct cur as [|x cur].
    + destruct (Str.is_letter c) eqn:L.
      * eapply Forall_impl; [apply (IH [c])|].
        -- right. exists c, []. repeat split; [assumption|constructor].
        -- intros tok [Hw Hin]. split; assumption.
      * eapply Forall_impl; [apply (IH []); left; reflexivity|].
        intros tok [Hw (a & b & E)]. split; [assumption|].
        exists (c :: a), b. cbn in *. rewrite E. reflexivity.
    + destruct Hcur as [Hcur|Hcur]; [discriminate|].
      destruct (Str.is_word_char c) eqn:W.
      * eapply Forall_impl; [apply (IH ((x :: cur) ++ [c]))|].
        -- right. destruct Hcur as (y & r & E & Hy & Hr). injection E as <- <-.
           exists x, (cur ++ [c]). repeat split; [assumption|].
           apply Forall_app. split; [assumption|]. repeat constructor. assumption.
        -- intros tok [Hw (a & b & E)]. split; [assumption|].
           exists a, b. rewrite <- E, <- app_assoc. reflexivity.
      * apply Forall_app. split.
        -- unfold emit. destruct (Nat.leb_spec 2 (length (x :: cur))); [|constructor].
           constructor; [|constructor]. split.
           ++ destruct Hcur as (y & r & E & Hy & Hr). injection E as <- <-.
              exists x, cur. repeat split; try assumption.
              destruct cur; [simpl in *; lia|discriminate].
           ++ exists [], (c :: s). reflexivity.
        -- eapply Forall_impl; [apply (IH []); left; reflexivity|].
           intros tok [Hw (a & b & E)]. split; [assumption|].
           exists ((x :: cur) ++ c :: a), b. cbn in E. rewrite E, <- !app_assoc. reflexivity.
Qed.

(** X1. Every token is a piece of the text, starts with an ASCII letter,
    goes on with letters, hyphens and apostrophes, and has at least two
    code points. *)
Theorem findall_tokens_are_words (text : pystr) :
  Forall (fun tok => word_shaped tok ∧ (2 <= length tok)%nat
                     ∧ ∃ a b, text = a ++ tok ++ b)
         (findall text).
Proof.
  eapply Forall_impl; [apply (findall_aux_tokens [] text); left; reflexivity|].
  intros tok [Hw Hin]. split; [assumption|]. split; [|exact Hin].
  destruct Hw as (c & r & -> & _ & Hr & _). destruct r; [congruence|simpl; lia].
Qed.


(** ** More on the result of the extractor *)

Lemma lower_cp_letter c : Str.is_letter c = true -> Str.is_lower (Str.lower_cp c) = true.
Proof.
  unfold Str.is_letter, Str.lower_cp. destruct (Str.is_upper c) eqn:U; [intros _|simpl; auto].
  revert U. unfold Str.is_upper, Str.is_lower.
  rewrite !andb_true_iff, !N.leb_le. lia.
Qed.

Lemma lower_cp_word_char c :
  Str.is_word_char c = true ->
  Str.is_lower (Str.lower_cp c) = true ∨ Str.lower_cp c = 45 ∨ Str.lower_cp c = 39.
Proof.
  unfold Str.is_word_char. rewrite !orb_true_iff.
  intros [[L|H]|H]; [left; apply lower_cp_letter; assumption| |];
    apply N.eqb_eq in H; subst; vm_compute; auto.
Qed.

Lemma surviving_lowercase_word text w : w ∈ surviving text -> lowercase_word w.
Proof.
  intros Hw. pose proof (surviving_props text w Hw) as (_ & Hlen & _).
  apply clean_elem in Hw as (tok & Htok & -> & _).
  pose proof (findall_tokens_are_words text) as Hall.
  apply (proj1 (Forall_forall _ _) Hall) in Htok as [(c & r & -> & Hc & _ & Hr) _].
  destruct (base_of_prefix (c :: r)) as [k Hk].
  destruct (base_of (c :: r)) as [|x rest]; [simpl in Hlen; lia|].
  cbn in Hk. injection Hk as <- Hrest.
  exists (Str.lower_cp c), rest. split; [reflexivity|].
  split; [apply lower_cp_letter; assumption|].
  assert (Forall (fun d => Str.is_lower d = true ∨ d = 45 ∨ d = 39) (map Str.lower_cp r)) as Hall'.
  { apply Forall_forall. intros d Hd. apply list_elem_of_In, in_map_iff in Hd as (e & <- & He).
    apply lower_cp_word_char. apply (proj1 (Forall_forall _ _) Hr). apply list_elem_of_In. assumption. }
  rewrite Hrest in Hall'. apply Forall_app in Hall' as [H _]. exact H.
Qed.

Lemma extract_subset text w :
  w ∈ extract_top3_nouns_like text -> w ∈ surviving text.
Proof.
  destruct (extract_ranked text) as (ranked & _ & Hel & _ & ->).
  intros Hw. apply Hel. apply elem_of_take in Hw as (i & Hi & _).
  apply list_elem_of_lookup. eauto.
Qed.

(** X2. Every keyword is a lowercase ASCII word: it starts with a letter
    a-z and holds only letters a-z, hyphens and apostrophes. *)
Theorem extract_top3_lowercase_words (text : pystr) :
  Forall lowercase_word (extract_top3_nouns_like text).
Proof.
  apply Forall_forall. intros w Hw.
  apply (surviving_lowercase_word text), extract_subset, Hw.
Qed.

(** X3. The number of keywords is the number of distinct surviving tokens,
    capped at three: no keyword is lost when fewer than three tokens
    survive, and the result is empty only when no token survives. *)
Theorem extract_top3_length (text : pystr) :
  length (extract_top3_nouns_like text)
  = Nat.min 3 (length (remove_dups (surviving text))).
Proof.
  destruct (extract_ranked text) as (ranked & ND & Hel & _ & ->).
  rewrite length_take. f_equal. apply Permutation_length.
  apply NoDup_Permutation; [assumption|apply NoDup_remove_dups|].
  intros w. rewrite Hel, elem_of_remove_dups. reflexivity.
Qed.

Lemma score_bounds text w :
  (inject_Z (frequency text w) <= score text w
   <= inject_Z (frequency text w) + (7 # 20))%Q.
Proof.
  unfold score. repeat case_bool_decide; split; Lqa.lra.
Qed.

Lemma ranks_before_frequency text a b :
  ranks_before text a b -> (frequency text b <= frequency text a)%Z.
Proof.
  intros H.
  assert (score text b <= score text a)%Q as Hs.
  { destruct H as [H|[H _]]; Lqa.lra. }
  destruct (score_bounds text a) as [_ Ha], (score_bounds text b) as [Hb _].
  destruct (Z_lt_le_dec (frequency text a) (frequency text b)) as [L|L]; [|assumption].
  exfalso.
  assert (inject_Z (frequency text a) + 1 <= inject_Z (frequency text b))%Q as L'.
  { change 1%Q with (inject_Z 1). rewrite <- inject_Z_plus. rewrite <- Zle_Qle. lia. }
  Lqa.lra.
Qed.

(** X4. The bonuses never outweigh an occurrence: the keywords come in
    order of non-increasing raw frequency, and no surviving token that is
    left out occurs more often than a keyword. *)
Theorem extract_top3_by_frequency (text : pystr) :
  StronglySorted (fun a b => (frequency text b <= frequency text a)%Z)
                 (extract_top3_nouns_like text)
  ∧ ∀ k w, k ∈ extract_top3_nouns_like text -> w ∈ surviving text ->
           w ∉ extract_top3_nouns_like text ->
           (frequency text w <= frequency text k)%Z.
Proof.
  destruct (extract_ranked text) as (ranked & ND & Hel & Hs & ->).
  rewrite <- (take_drop 3 ranked) in Hs.
  apply StronglySorted_app in Hs as (Hcross & Hs1 & _).
  split.
  - clear Hcross. induction Hs1 as [|x l _ IH Hx]; constructor; [assumption|].
    eapply Forall_impl; [exact Hx|]. intros y. apply ranks_before_frequency.
  - intros k w Hk Hw Hn. apply (ranks_before_frequency text k w), Hcross; [assumption|].
    apply Hel in Hw. rewrite <- (take_drop 3 ranked) in Hw.
    apply elem_of_app in Hw as [Hw|Hw]; [contradiction|assumption].
Qed.


(** ** More on the confidence heuristic *)

Local Open Scope R_scope.

Lemma round_half_even_mono x y :
  x <= y -> (round_half_even x <= round_half_even y)%Z.
Proof.
  intros [H| ->]; [|lia].
  destruct (round_half_even_near x) as [Lx Hx], (round_half_even_near y) as [Ly Hy].
  destruct (Z_lt_le_dec (round_half_even y) (round_half_even x)) as [L|L]; [|assumption].
  exfalso.
  assert (IZR (round_half_even y) + 1 <= IZR (round_half_even x)) as L'.
  { rewrite <- plus_IZR. apply IZR_le. lia. }
  Lra.lra.
Qed.

Lemma round_mono x y : x <= y -> round x 3 <= round y 3.
Proof.
  intros H. unfold round. replace (10 ^ 3) with 1000 by (simpl; Lra.lra).
  assert (round_half_even (x * 1000) <= round_half_even (y * 1000))%Z as L
    by (apply round_half_even_mono; Lra.lra).
  apply IZR_le in L. Lra.lra.
Qed.

Lemma round_half_even_shift y k :
  Z.even k = true -> round_half_even (y + IZR k) = (round_half_even y + k)%Z.
Proof.
  intros Hk.
  assert (Int_part (y + IZR k) = (Int_part y + k)%Z) as E.
  { symmetry. apply Int_part_spec. destruct (base_Int_part y) as [Lo Hi].
    rewrite plus_IZR. split; Lra.lra. }
  unfold round_half_even. rewrite E, plus_IZR.
  replace (y + IZR k - (IZR (Int_part y) + IZR k)) with (y - IZR (Int_part y))
    by Lra.lra.
  rewrite Z.even_add, Hk.
  destruct (total_order_T (y - IZR (Int_part y)) (1 / 2)) as [[H|H]|H]; [lia| |lia].
  destruct (Z.even (Int_part y)); simpl; lia.
Qed.

Lemma log10_mono x y : 0 < x -> x <= y -> log10 x <= log10 y.
Proof.
  intros Hx Hxy. unfold log10. pose proof ln_10_pos as P.
  assert (ln x <= ln y) as L.
  { destruct Hxy as [H| <-]; [left; apply ln_increasing; assumption|right; reflexivity]. }
  apply (Rmult_le_reg_r (ln 10)); [assumption|].
  replace (ln x / ln 10 * ln 10) with (ln x) by (field; Lra.lra).
  replace (ln y / ln 10 * ln 10) with (ln y) by (field; Lra.lra).
  assumption.
Qed.

Lemma log10_10 : log10 10 = 1.
Proof. unfold log10. pose proof ln_10_pos. field. Lra.lra. Qed.

Lemma log10_1000 : log10 1000 = 3.
Proof.
  unfold log10. pose proof ln_10_pos.
  replace 1000 with (10 ^ 3) by (simpl; Lra.lra).
  rewrite ln_pow by Lra.lra.
  replace (INR 3) with 3 by (rewrite INR_IZR_INZ; reflexivity).
  field. Lra.lra.
Qed.

Lemma raw_confidence_mono t1 t2 ok :
  (word_count t1 <= word_count t2)%Z ->
  raw_confidence t1 ok <= raw_confidence t2 ok.
Proof.
  intros H. unfold raw_confidence. cbv zeta.
  assert (log10 (IZR (Z.max 1 (word_count t1) + 9))
          <= log10 (IZR (Z.max 1 (word_count t2) + 9))) as L.
  { apply log10_mono.
    - apply IZR_lt. lia.
    - apply IZR_le. lia. }
  assert (Rmin 0.30 (log10 (IZR (Z.max 1 (word_count t1) + 9)) / 10.0)
          <= Rmin 0.30 (log10 (IZR (Z.max 1 (word_count t2) + 9)) / 10.0)) as M.
  { apply Rle_min_compat_l. Lra.lra. }
  Lra.lra.
Qed.

(** X5. A text with more words never has a lower confidence. *)
Theorem confidence_monotone_in_words (t1 t2 : pystr) (ok : bool) :
  (word_count t1 <= word_count t2)%Z ->
  _confidence_heuristic t1 ok <= _confidence_heuristic t2 ok.
Proof.
  intros H. rewrite !confidence_is_round.
  apply Rle_max_compat_l, Rle_min_compat_l, round_mono, raw_confidence_mono, H.
Qed.

Lemma confidence_monotone_in_words_witness :
  _confidence_heuristic (py "one two") true
  <= _confidence_heuristic (py "one two three") true.
Proof.
  apply (confidence_monotone_in_words (py "one two") (py "one two three") true).
  vm_compute. discriminate.
Defined.

Lemma confidence_of_raw text ok k :
  raw_confidence text ok = IZR k / 1000 -> (500 <= k <= 980)%Z ->
  _confidence_heuristic text ok = IZR k / 1000.
Proof.
  intros E [Lo Hi]. rewrite confidence_is_round, E, round_thousandths.
  apply IZR_le in Lo. apply IZR_le in Hi.
  rewrite Rmin_right by Lra.lra. rewrite Rmax_right by Lra.lra. reflexivity.
Qed.

(** X6. The heuristic has a floor and a ceiling in the number of words: a
    text of at most one word (a blank text included) gets 0.65, or 0.75
    after a successful external call; a text of 991 words or more gets
    0.85, or 0.95. *)
Theorem confidence_floor_and_ceiling (text : pystr) (ok : bool) :
  ((word_count text <= 1)%Z ->
   _confidence_heuristic text ok = if ok then 0.75 else 0.65)
  ∧ ((991 <= word_count text)%Z ->
     _confidence_heuristic text ok = if ok then 0.95 else 0.85).
Proof.
  split; intros H.
  - assert (raw_confidence text ok = if ok then 0.75 else 0.65) as E.
    { unfold raw_confidence. cbv zeta.
      replace (Z.max 1 (word_count text) + 9)%Z with 10%Z by lia.
      rewrite log10_10. rewrite Rmin_right by Lra.lra. destruct ok; Lra.lra. }
    destruct ok.
    + rewrite (confidence_of_raw text true 750); [Lra.lra|rewrite E; Lra.lra|lia].
    + rewrite (confidence_of_raw text false 650); [Lra.lra|rewrite E; Lra.lra|lia].
  - assert (raw_confidence text ok = if ok then 0.95 else 0.85) as E.
    { unfold raw_confidence. cbv zeta.
      assert (3 <= log10 (IZR (Z.max 1 (word_count text) + 9))) as L.
      { rewrite <- log10_1000. apply log10_mono; [Lra.lra|]. apply IZR_le. lia. }
      rewrite Rmin_left by Lra.lra. destruct ok; Lra.lra. }
    destruct ok.
    + rewrite (confidence_of_raw text true 950); [Lra.lra|rewrite E; Lra.lra|lia].
    + rewrite (confidence_of_raw text false 850); [Lra.lra|rewrite E; Lra.lra|lia].
Qed.

Lemma confidence_floor_and_ceiling_witness :
  _confidence_heuristic (py "   ") false = 0.65.
Proof.
  apply (confidence_floor_and_ceiling (py "   ") false).
  vm_compute. discriminate.
Defined.

Lemma confidence_eq_round text ok :
  _confidence_heuristic text ok = round (raw_confidence text ok) 3.
Proof.
  pose proof (round_raw_bounds text ok) as [Lo Hi].
  rewrite confidence_is_round.
  rewrite Rmin_right by Lra.lra. rewrite Rmax_right by Lra.lra. reflexivity.
Qed.

Lemma round_plus_tenth x : round (x + 0.10) 3 = round x 3 + 0.10.
Proof.
  unfold round. replace (10 ^ 3) with 1000 by (simpl; Lra.lra).
  replace ((x + 0.10) * 1000) with (x * 1000 + IZR 100) by Lra.lra.
  rewrite round_half_even_shift by reflexivity. rewrite plus_IZR. Lra.lra.
Qed.

(** X7. A successful external call is worth 0.10 whatever the text: the
    confidence after a successful call is the confidence after a failed
    one plus 0.10, rounded to three decimal places. *)
Theorem confidence_llm_bonus (text : pystr) :
  _confidence_heuristic text true
  = round (_confidence_heuristic text false + 0.10) 3.
Proof.
  rewrite !confidence_eq_round, round_plus_tenth.
  destruct (round3_thousandths (raw_confidence text false)) as [k Hk].
  rewrite Hk, round_thousandths, <- Hk, <- round_plus_tenth. f_equal.
  unfold raw_confidence. cbv zeta. Lra.lra.
Qed.

Local Close Scope R_scope.


(** ** More on the in-memory backend *)

Section BackendMore.

Import InMemoryDB StorageSpec.

Variable str_lower : pystr -> pystr.
Variable uuid4 : nat -> pystr.

Lemma filter_selected_ext (h h' : gmap loc Row) topic (rows : list loc) :
  (∀ l, l ∈ rows -> h' !! l = h !! l) ->
  filter (selected str_lower h' topic) rows = filter (selected str_lower h topic) rows.
Proof.
  induction rows as [|l rows IH]; intros H; [reflexivity|].
  rewrite !filter_cons.
  assert (selected str_lower h' topic l <-> selected str_lower h topic l) as E.
  { unfold selected. rewrite (H l) by left. reflexivity. }
  rewrite IH by (intros l' Hl'; apply H; right; assumption).
  destruct (decide (selected str_lower h' topic l)) as [S|S],
           (decide (selected str_lower h topic l)) as [S'|S']; tauto.
Qed.

(** X8. An insertion changes the answer of a search by the new record
    only: the search after the insertion returns what it returned before,
    followed by the new record when the query is blank or matches it. *)
Theorem search_after_insert (w : World) (row : loc) (r : Row) (topic : pystr) :
  heap w !! row = Some r ->
  well_formed w ->
  ∃ item w' stored,
    insert_analysis uuid4 row w = Some (item, w')
    ∧ heap w' !! item = Some stored
    ∧ search str_lower topic w'
      = search str_lower topic w
        ++ (if bool_decide (Str.strip (str_lower topic) = []
                            ∨ exact_match str_lower topic stored)
            then [item] else []).
Proof.
  intros Hrow [Hwf _].
  destruct (insert_analysis_effect uuid4 row r w Hrow) as [Hfresh Heq].
  eexists _, _, _. split; [exact Heq|]. cbn [heap].
  split; [apply lookup_insert_eq|].
  unfold search. cbv zeta. cbn [heap _rows].
  destruct (bool_decide (Str.strip (str_lower topic) = [])) eqn:Hq.
  - apply bool_decide_eq_true in Hq.
    rewrite bool_decide_eq_true_2 by (left; assumption). reflexivity.
  - apply bool_decide_eq_false in Hq.
    rewrite !search_loop_filter, !app_nil_l, filter_app.
    rewrite (filter_selected_ext (heap w)).
    + f_equal. rewrite filter_cons, filter_nil.
      destruct (decide (selected str_lower _ topic _)) as [S|S];
        unfold selected in S; rewrite lookup_insert_eq in S.
      * rewrite bool_decide_eq_true_2 by (right; assumption). reflexivity.
      * rewrite bool_decide_eq_false_2 by tauto. reflexivity.
    + intros l Hl. apply lookup_insert_ne. intros <-.
      destruct (Hwf _ Hl) as [d Hd]. congruence.
Qed.

(** X9. The insertion keeps the store well formed: every stored reference
    is a live dict object, and no reference is stored twice. *)
Theorem insert_analysis_well_formed (w : World) (row : loc) (r : Row) :
  heap w !! row = Some r ->
  well_formed w ->
  ∃ item w', insert_analysis uuid4 row w = Some (item, w') ∧ well_formed w'.
Proof.
  intros Hrow [Hwf ND].
  destruct (insert_analysis_effect uuid4 row r w Hrow) as [Hfresh Heq].
  eexists _, _. split; [exact Heq|]. split; cbn [heap _rows].
  - intros l [Hl|Hl]%elem_of_app.
    + destruct (Hwf l Hl) as [d Hd]. exists d.
      rewrite lookup_insert_ne; [assumption|congruence].
    + apply list_elem_of_singleton in Hl. subst l.
      rewrite lookup_insert_eq. eauto.
  - apply NoDup_app. split; [assumption|]. split; [|apply NoDup_singleton].
    intros l Hl Hl'%list_elem_of_singleton. subst l.
    destruct (Hwf _ Hl) as [d Hd]. congruence.
Qed.

End BackendMore.

Lemma search_after_insert_witness :
  ∃ item w' stored,
    insert_analysis Sample.uuid4 1%positive (Sample.stored_world Sample.air)
    = Some (item, w')
    ∧ heap w' !! item = Some stored
    ∧ search Str.lower (py "AIR") w'
      = search Str.lower (py "AIR") (Sample.stored_world Sample.air)
        ++ (if bool_decide (Str.strip (Str.lower (py "AIR")) = []
                            ∨ exact_match Str.lower (py "AIR") stored)
            then [item] else []).
Proof.
  apply (search_after_insert Str.lower Sample.uuid4
           (Sample.stored_world Sample.air) 1%positive Sample.air (py "AIR")).
  - reflexivity.
  - split.
    + intros l Hl. apply list_elem_of_singleton in Hl. subst l.
      exists Sample.air. reflexivity.
    + apply NoDup_singleton.
Defined.

Lemma insert_analysis_well_formed_witness :
  ∃ item w',
    insert_analysis Sample.uuid4 1%positive (Sample.stored_world Sample.air)
    = Some (item, w')
    ∧ well_formed w'.
Proof.
  apply (insert_analysis_well_formed Sample.uuid4
           (Sample.stored_world Sample.air) 1%positive Sample.air).
  - reflexivity.
  - split.
    + intros l Hl. apply list_elem_of_singleton in Hl. subst l.
      exists Sample.air. reflexivity.
    + apply NoDup_singleton.
Defined.


(** ** Trimming twice *)

Lemma rstrip_with_cons p c s :
  Str.rstrip_with p (c :: s)
  = match Str.rstrip_with p s with
    | [] => if p c then [] else [c]
    | r => c :: r
    end.
Proof.
  unfold Str.rstrip_with. cbn [fold_right].
  destruct (fold_right _ [] s); reflexivity.
Qed.

Lemma rstrip_with_idem p s :
  Str.rstrip_with p (Str.rstrip_with p s) = Str.rstrip_with p s.
Proof.
  induction s as [|c s IH]; [reflexivity|].
  rewrite rstrip_with_cons. destruct (Str.rstrip_with p s) as [|d r] eqn:E.
  - destruct (p c) eqn:Hc; [reflexivity|]. cbn. rewrite Hc. reflexivity.
  - rewrite rstrip_with_cons, IH. reflexivity.
Qed.

Lemma strip_idem s : Str.strip (Str.strip s) = Str.strip s.
Proof.
  unfold Str.strip, Str.rstrip.
  assert (Str.lstrip (Str.rstrip_with Str.is_space (Str.lstrip s))
          = Str.rstrip_with Str.is_space (Str.lstrip s)) as ->.
  { destruct (rstrip_with_prefix Str.is_space (Str.lstrip s)) as [k Hk].
    destruct (Str.rstrip_with Str.is_space (Str.lstrip s)) as [|x r]; [reflexivity|].
    apply lstrip_head in Hk. cbn. rewrite Hk. reflexivity. }
  apply rstrip_with_idem.
Qed.

Section QueryNormalisation.

Variable str_lower : pystr -> pystr.
Hypothesis str_lower_strip :
  ∀ s, Str.strip (str_lower s) = str_lower (Str.strip s).

(** X10. The search normalises its query: whitespace around the query and
    the letter case of the query do not change the answer. *)
Theorem search_query_normalised (topic topic' : pystr) (w : World) :
  search str_lower (Str.strip topic) w = search str_lower topic w
  ∧ (str_lower topic' = str_lower topic ->
     search str_lower topic' w = search str_lower topic w).
Proof using str_lower_strip.
  split.
  - unfold search. cbv zeta. rewrite !str_lower_strip, strip_idem. reflexivity.
  - intros E. unfold search. cbv zeta. rewrite E. reflexivity.
Qed.

End QueryNormalisation.

Lemma search_query_normalised_witness :
  search Str.lower (Str.strip (py "  Air ")) (Sample.stored_world Sample.air)
  = search Str.lower (py "  Air ") (Sample.stored_world Sample.air)
  ∧ search Str.lower (py "AIR") (Sample.stored_world Sample.air)
    = search Str.lower (py "air") (Sample.stored_world Sample.air).
Proof.
  split.
  - apply (search_query_normalised Str.lower lower_strip (py "  Air ") (py "x")).
  - apply (search_query_normalised Str.lower lower_strip (py "air") (py "AIR")).
    reflexivity.
Defined.


(** ** More on the endpoint *)

Section RouterMore.

Import Analyze AnalyzeSpec.

Variable uuid4 : nat -> pystr.
Variable summarize : nat -> pystr -> option pystr.
Variable extract_metadata : nat -> pystr -> option Meta.

Lemma analyze_single_blank text w :
  Str.strip text = [] ->
  _analyze_single uuid4 summarize extract_metadata text w
  = (inl (HTTPException 400 "Empty input text."), w).
Proof.
  intros H. unfold _analyze_single. cbv zeta.
  rewrite bool_decide_eq_true_2 by assumption. reflexivity.
Qed.

(** The effect of the analysis of a text that is not blank: two dict
    objects are allocated, the row and its stored copy. *)
Lemma analyze_single_world text w :
  Str.strip text ≠ [] ->
  ∃ l1 l2 row stored w',
    _analyze_single uuid4 summarize extract_metadata text w = (inr stored, w')
    ∧ heap w !! l1 = None ∧ heap w !! l2 = None
    ∧ heap w' = <[l2 := stored]> (<[l1 := row]> (heap w))
    ∧ _rows w' = _rows w ++ [l2]
    ∧ drawn w' = S (drawn w)
    ∧ stored = set_id (Some (uuid4 (drawn w))) row
    ∧ row = (let '(summary, title, topics, sentiment, llm_ok) :=
               fst (call_llm summarize extract_metadata (Str.strip text) w) in
             mkRow None title summary topics sentiment
                   (extract_top3_nouns_like (Str.strip text))
                   (_confidence_heuristic (Str.strip text) llm_ok)
                   (Str.strip text)).
Proof.
  intros Hne. unfold _analyze_single. cbv zeta.
  rewrite bool_decide_eq_false_2 by assumption.
  destruct (call_llm summarize extract_metadata (Str.strip text) w)
    as [[[[[summary title] topics] sentiment] llm_ok] w0] eqn:Hllm.
  apply call_llm_frame in Hllm as (Hh & Hr & Hd).
  unfold alloc.
  set (row := mkRow None title summary topics sentiment
                    (extract_top3_nouns_like (Str.strip text))
                    (_confidence_heuristic (Str.strip text) llm_ok)
                    (Str.strip text)).
  set (l := fresh (dom (heap w0))).
  set (w2 := set_heap (<[l := row]> (heap w0)) w0).
  assert (heap w2 !! l = Some row) as Hl by apply lookup_insert_eq.
  destruct (insert_analysis_effect uuid4 l row w2 Hl) as [Hfresh Heq].
  rewrite Heq. cbn [heap]. rewrite lookup_insert_eq.
  exists l, (fresh (dom (heap w2))), row, (set_id (Some (uuid4 (drawn w))) row).
  eexists. subst w2. cbn [heap _rows drawn set_heap falsy row_id row] in *.
  rewrite Hd, Hr, Hh in *.
  split; [reflexivity|]. split.
  { apply not_elem_of_dom. subst l. rewrite Hh. apply is_fresh. }
  split.
  { rewrite lookup_insert_ne in Hfresh; [assumption|].
    intros E. rewrite <- E, lookup_insert_eq in Hfresh. discriminate. }
  repeat split; reflexivity.
Qed.

Lemma analyze_loop_abort pre t post results w :
  Forall (fun t => Str.strip t ≠ []) pre ->
  Str.strip t = [] ->
  ∃ rs w1,
    isolated uuid4 summarize extract_metadata w pre rs w1
    ∧ analyze_loop uuid4 summarize extract_metadata (pre ++ t :: post) results w
      = (inl (HTTPException 400 "Empty input text."), w1).
Proof.
  intros Hpre Ht. revert results w.
  induction Hpre as [|x pre Hx _ IH]; intros results w.
  - exists [], w. split; [reflexivity|].
    cbn [app analyze_loop]. rewrite analyze_single_blank by assumption. reflexivity.
  - destruct (analyze_single_ok uuid4 summarize extract_metadata x w Hx)
      as (a & w1 & Ha & Hp & Hx' & Hd).
    destruct (IH (results ++ [a]) w1) as (rs & w2 & Hiso & Hloop).
    exists (a :: rs), w2. split.
    + cbn [isolated]. exists w1. auto.
    + cbn [app analyze_loop]. rewrite Ha. exact Hloop.
Qed.



(** X12. A blank text in a batch aborts the request with the error "Empty
    input text." when its turn comes: the texts before it have been
    analysed and their records stay in the store, the texts after it are
    not looked at. *)
Theorem analyze_aborts_at_blank_item (payload : AnalyzeRequest)
  (pre post : list pystr) (t : pystr) (w : World) :
  items_of payload = inr (pre ++ t :: post) ->
  Forall (fun t => Str.strip t ≠ []) pre ->
  Str.strip t = [] ->
  ∃ rs w1,
    isolated uuid4 summarize extract_metadata w pre rs w1
    ∧ analyze uuid4 summarize extract_metadata payload w
      = (inl (HTTPException 400 "Empty input text."), w1).
Proof.
  intros Hitems Hpre Ht. unfold analyze. rewrite Hitems.
  apply analyze_loop_abort; assumption.
Qed.

(** X13. When both calls of the external capability answer, the record of
    a text holds the answers: the summary, and the title, topics and
    sentiment of the metadata; its keywords are those of the trimmed text,
    its confidence that of a successful call, its text the trimmed text and
    its id the uuid drawn for it. *)
Theorem analyze_single_with_llm (text s : pystr) (meta : Meta) (w : World) :
  Str.strip text ≠ [] ->
  summarize (calls w) (Str.strip text) = Some s ->
  extract_metadata (S (calls w)) (Str.strip text) = Some meta ->
  ∃ w',
    _analyze_single uuid4 summarize extract_metadata text w
    = (inr (mkRow (Some (uuid4 (drawn w))) (meta_title meta) s
                  (meta_topics meta) (meta_sentiment meta)
                  (extract_top3_nouns_like (Str.strip text))
                  (_confidence_heuristic (Str.strip text) true)
                  (Str.strip text)), w').
Proof.
  intros Hne Hs Hm.
  destruct (analyze_single_world text w Hne)
    as (l1 & l2 & row & stored & w' & Heq & _ & _ & _ & _ & _ & -> & ->).
  exists w'. rewrite Heq. unfold call_llm. rewrite Hs. cbn [tick calls].
  rewrite Hm. reflexivity.
Qed.

Lemma analyze_single_ids text w :
  ids_in_sequence uuid4 w ->
  ids_in_sequence uuid4
    (snd (_analyze_single uuid4 summarize extract_metadata text w)).
Proof.
  intros Hinv. destruct (decide (Str.strip text = [])) as [E|E].
  { rewrite analyze_single_blank by assumption. exact Hinv. }
  destruct (analyze_single_world text w E)
    as (l1 & l2 & row & stored & w' & Heq & H1 & H2 & Hh & Hr & Hd & Hst & _).
  rewrite Heq. cbn [snd]. destruct Hinv as [[Hlive ND] Hids].
  assert (∀ l, l ∈ _rows w -> heap w' !! l = heap w !! l) as Hold.
  { intros l Hl. destruct (Hlive l Hl) as [d Hd'].
    rewrite Hh, !lookup_insert_ne; congruence. }
  split; [split|].
  - intros l. rewrite Hr. intros [Hl|Hl]%elem_of_app.
    + rewrite Hold by assumption. auto.
    + apply list_elem_of_singleton in Hl. subst l.
      rewrite Hh, lookup_insert_eq. eauto.
  - rewrite Hr. apply NoDup_app. split; [assumption|]. split; [|apply NoDup_singleton].
    intros l Hl Hl'%list_elem_of_singleton. subst l.
    destruct (Hlive _ Hl) as [d Hd']. congruence.
  - unfold stored_ids in *. rewrite Hr, Hd, map_app, seq_S, map_app. f_equal.
    + rewrite <- Hids. apply map_ext_in. intros l Hl%list_elem_of_In.
      rewrite Hold by assumption. reflexivity.
    + cbn. rewrite Hh, lookup_insert_eq, Hst. reflexivity.
Qed.

Lemma analyze_loop_ids items results w :
  ids_in_sequence uuid4 w ->
  ids_in_sequence uuid4
    (snd (analyze_loop uuid4 summarize extract_metadata items results w)).
Proof.
  revert results w. induction items as [|t items IH]; intros results w Hinv.
  - exact Hinv.
  - cbn [analyze_loop]. pose proof (analyze_single_ids t w Hinv) as H.
    destruct (_analyze_single uuid4 summarize extract_metadata t w) as [[e|a] w1].
    + exact H.
    + apply IH. exact H.
Qed.

(** X14. The endpoint keeps the ids of the store in step with the uuids
    drawn, whether the request succeeds or fails: as long as the uuid
    source does not repeat itself, no two stored records share an id. *)
Theorem analyze_keeps_ids_distinct (payload : AnalyzeRequest) (w : World) :
  (∀ i j, uuid4 i = uuid4 j -> i = j) ->
  ids_in_sequence uuid4 w ->
  ids_in_sequence uuid4 (snd (analyze uuid4 summarize extract_metadata payload w))
  ∧ NoDup (stored_ids (snd (analyze uuid4 summarize extract_metadata payload w))).
Proof.
  intros Hinj Hinv.
  assert (ids_in_sequence uuid4
            (snd (analyze uuid4 summarize extract_metadata payload w))) as H.
  { unfold analyze. destruct (items_of payload); [exact Hinv|].
    apply analyze_loop_ids. exact Hinv. }
  split; [exact H|]. destruct H as [_ ->].
  assert (Inj eq eq (fun k => Some (uuid4 k))) as Hinj'.
  { intros i j [= E]. apply Hinj. exact E. }
  apply (NoDup_fmap_2 (fun k => Some (uuid4 k))). apply NoDup_seq.
Qed.

End RouterMore.

Lemma sample_uuid4_inj i j : Sample.uuid4 i = Sample.uuid4 j -> i = j.
Proof.
  unfold Sample.uuid4. intros E. apply app_inv_head in E.
  apply (f_equal length) in E. rewrite !repeat_length in E. lia.
Qed.

Lemma empty_world_in_sequence : ids_in_sequence Sample.uuid4 Sample.empty_world.
Proof.
  split; [split|reflexivity].
  - intros l Hl. inversion Hl.
  - constructor.
Qed.


Lemma analyze_aborts_at_blank_item_witness :
  ∃ rs w1,
    AnalyzeSpec.isolated Sample.uuid4 Sample.summarize Sample.extract_metadata
      Sample.empty_world [py "ok text"] rs w1
    ∧ Analyze.analyze Sample.uuid4 Sample.summarize Sample.extract_metadata
        Sample2.with_blank Sample.empty_world
      = (inl (Analyze.HTTPException 400 "Empty input text."), w1).
Proof.
  apply (analyze_aborts_at_blank_item Sample.uuid4 Sample.summarize
           Sample.extract_metadata Sample2.with_blank
           [py "ok text"] [py "later"] (py "  ") Sample.empty_world).
  - reflexivity.
  - repeat constructor; vm_compute; discriminate.
  - reflexivity.
Defined.

Lemma analyze_single_with_llm_witness :
  ∃ w',
    Analyze._analyze_single Sample.uuid4 Sample.summarize Sample.extract_metadata
      (py " AI engineering ") Sample2.warm_world
    = (inr (mkRow (Some (Sample.uuid4 0)) None
                  (py "This is a mock summary of the provided text.")
                  [py "technology"; py "ai"; py "engineering"] (py "neutral")
                  (extract_top3_nouns_like (Str.strip (py " AI engineering ")))
                  (_confidence_heuristic (Str.strip (py " AI engineering ")) true)
                  (Str.strip (py " AI engineering "))), w').
Proof.
  apply (analyze_single_with_llm Sample.uuid4 Sample.summarize
           Sample.extract_metadata (py " AI engineering ")
           (py "This is a mock summary of the provided text.")
           (Analyze.mkMeta None [py "technology"; py "ai"; py "engineering"]
                           (py "neutral"))
           Sample2.warm_world).
  - vm_compute. discriminate.
  - reflexivity.
  - reflexivity.
Defined.

Lemma analyze_keeps_ids_distinct_witness :
  ids_in_sequence Sample.uuid4
    (snd (Analyze.analyze Sample.uuid4 Sample.summarize Sample.extract_metadata
            Sample.batch Sample.empty_world))
  ∧ NoDup (stored_ids
             (snd (Analyze.analyze Sample.uuid4 Sample.summarize
                     Sample.extract_metadata Sample.batch Sample.empty_world))).
Proof.
  apply (analyze_keeps_ids_distinct Sample.uuid4 Sample.summarize
           Sample.extract_metadata Sample.batch Sample.empty_world).
  - exact sample_uuid4_inj.
  - exact empty_world_in_sequence.
Defined.


(** ** The Supabase backend: merging the two selections *)

Section SupabaseFacts.

Import SupabaseDB.

Lemma merge_loop_spec (rows : list Row) (ids : gset (option pystr))
  (results : list Row) :
  (∀ i, i ∈ ids <-> i ∈ map row_id results) ->
  NoDup (map row_id results) ->
  ∃ extra,
    merge_loop rows ids results
    = (list_to_set (map row_id (results ++ extra)), results ++ extra)
    ∧ extra `sublist_of` rows
    ∧ NoDup (map row_id (results ++ extra))
    ∧ (∀ r, r ∈ rows -> row_id r ∈ map row_id (results ++ extra))
    ∧ (NoDup (map row_id rows) ->
       (∀ r, r ∈ rows -> row_id r ∉ map row_id results) -> extra = rows).
Proof.
  revert ids results. induction rows as [|row rows IH]; intros ids results Hids ND.
  - exists []. rewrite app_nil_r. cbn [merge_loop]. split.
    + f_equal. apply set_eq. intros i. rewrite Hids, elem_of_list_to_set. reflexivity.
    + split; [constructor|]. split; [assumption|]. split; [|reflexivity].
      intros r Hr. inversion Hr.
  - cbn [merge_loop]. destruct (decide (row_id row ∈ ids)) as [Hin|Hin].
    + destruct (IH ids results Hids ND) as (extra & Heq & Hsub & ND' & Hcov & Hfull).
      exists extra. split; [exact Heq|]. split; [apply sublist_cons; assumption|].
      split; [assumption|]. split.
      * intros r [->|Hr]%elem_of_cons; [|apply Hcov; assumption].
        rewrite map_app. apply elem_of_app. left. apply Hids. assumption.
      * intros _ Hnew. exfalso. apply (Hnew row); [left|]. apply Hids. assumption.
    + destruct (IH ({[row_id row]} ∪ ids) (results ++ [row]))
        as (extra & Heq & Hsub & ND' & Hcov & Hfull).
      * intros i. rewrite map_app, elem_of_app, elem_of_union, elem_of_singleton, Hids.
        cbn. rewrite list_elem_of_singleton. tauto.
      * rewrite map_app. apply NoDup_app. split; [assumption|].
        split; [|apply NoDup_singleton].
        intros i Hi Hi'%list_elem_of_singleton. subst i. apply Hin, Hids, Hi.
      * exists (row :: extra). rewrite <- app_assoc in *. cbn [app] in *.
        split; [exact Heq|]. split; [apply sublist_skip; assumption|].
        split; [assumption|]. split.
        -- intros r [->|Hr]%elem_of_cons; [|apply Hcov; assumption].
           rewrite map_app. apply elem_of_app. right. left.
        -- intros NDr Hnew. cbn [map] in NDr. apply NoDup_cons in NDr as [Hrow NDr].
           f_equal. apply Hfull; [assumption|].
           intros r Hr. rewrite map_app. intros [Hi|Hi]%elem_of_app.
           ++ apply (Hnew r); [right; assumption|assumption].
           ++ apply list_elem_of_singleton in Hi. apply Hrow. rewrite <- Hi.
              apply list_elem_of_In, in_map, list_elem_of_In. assumption.
Qed.

Variable remote_insert : Row -> remote (list Row).
Variable select_latest : remote (list Row).
Variable select_contains : column -> list pystr -> remote (list Row).

(** X16. For a query that is not blank, the Supabase search asks the
    remote store for the rows whose topics contain the trimmed query and
    for those whose keywords contain it, and returns the rows of the first
    answer followed by those of the second, without the rows whose id has
    been seen before: no id comes twice, every id of the two answers is
    represented, the order of the answers is kept, and when the ids of the
    first answer are distinct the first answer comes first as it is. *)
Theorem supabase_search_merges (topic : pystr) (ts ks : list Row) :
  Str.strip topic ≠ [] ->
  select_contains topics [Str.strip topic] = Responds (Some ts) ->
  select_contains keywords [Str.strip topic] = Responds (Some ks) ->
  ∃ results,
    search select_latest select_contains topic = inr results
    ∧ NoDup (map row_id results)
    ∧ results `sublist_of` (ts ++ ks)
    ∧ (∀ r, r ∈ ts ++ ks -> row_id r ∈ map row_id results)
    ∧ (NoDup (map row_id ts) -> ts `prefix_of` results).
Proof.
  intros Hq Ht Hk. unfold search. cbv zeta.
  rewrite bool_decide_eq_false_2 by assumption. rewrite Ht, Hk.
  cbv [data_of default from_option Datatypes.id].
  destruct (merge_loop_spec ts ∅ []) as (e1 & Heq1 & Hsub1 & ND1 & Hcov1 & Hfull1).
  { intros i. cbn. rewrite elem_of_empty. split; [tauto|]. intros H. inversion H. }
  { constructor. }
  rewrite Heq1. cbn [app] in *.
  destruct (merge_loop_spec ks (list_to_set (map row_id e1)) e1)
    as (e2 & Heq2 & Hsub2 & ND2 & Hcov2 & Hfull2).
  { intros i. apply elem_of_list_to_set. }
  { assumption. }
  rewrite Heq2. exists (e1 ++ e2). split; [reflexivity|]. split; [assumption|].
  split; [apply sublist_app; assumption|]. split.
  - intros r [Hr|Hr]%elem_of_app; [|apply Hcov2; assumption].
    rewrite map_app. apply elem_of_app. left. apply Hcov1. assumption.
  - intros NDt. rewrite (Hfull1 NDt).
    + apply prefix_app_r. reflexivity.
    + intros r _ H. inversion H.
Qed.

End SupabaseFacts.

Lemma supabase_search_merges_witness :
  ∃ results,
    SupabaseDB.search SupabaseDB.Raises Sample3.select_contains (py " ai ")
    = inr results
    ∧ NoDup (map row_id results)
    ∧ results `sublist_of` ([Sample3.rowA; Sample3.rowB]
                            ++ [Sample3.rowB; Sample3.rowC])
    ∧ (∀ r, r ∈ [Sample3.rowA; Sample3.rowB] ++ [Sample3.rowB; Sample3.rowC] ->
            row_id r ∈ map row_id results)
    ∧ (NoDup (map row_id [Sample3.rowA; Sample3.rowB]) ->
       [Sample3.rowA; Sample3.rowB] `prefix_of` results).
Proof.
  apply (supabase_search_merges SupabaseDB.Raises Sample3.select_contains
           (py " ai ") [Sample3.rowA; Sample3.rowB] [Sample3.rowB; Sample3.rowC]).
  - vm_compute. discriminate.
  - reflexivity.
  - reflexivity.
Defined.

(** ** The application with the in-memory backend *)

Section ServiceFacts.

Import Service.

Variable str_lower : pystr -> pystr.
Variable uuid4 : nat -> pystr.
Variable summarize : nat -> pystr -> option pystr.
Variable extract_metadata : nat -> pystr -> option Analyze.Meta.

Lemma search_no_rows topic w :
  _rows w = [] -> InMemoryDB.search str_lower topic w = [].
Proof.
  intros H. unfold InMemoryDB.search. cbv zeta. rewrite H.
  destruct (bool_decide _); reflexivity.
Qed.

Lemma handle_search_db a r :
  search_db (snd (handle str_lower uuid4 summarize extract_metadata a r))
  = search_db a.
Proof.
  destruct r as [payload|topic]; cbn [handle]; [|reflexivity].
  destruct (Analyze.analyze _ _ _ _ _) as [[e|rs] w]; reflexivity.
Qed.

Lemma serve_search_db a requests :
  search_db (serve str_lower uuid4 summarize extract_metadata a requests)
  = search_db a.
Proof.
  revert a. induction requests as [|r requests IH]; intros a; [reflexivity|].
  unfold serve in *. cbn [fold_left]. rewrite IH. apply handle_search_db.
Qed.

(** X15. With the in-memory backend the two routers hold two stores: each
    of them calls [get_db()], which builds a new [InMemoryDB].  The search
    route reads a store that no route writes to, so that after any
    sequence of requests a search returns no record, whatever was
    analysed. *)
Theorem search_route_never_sees_analyses (requests : list request)
  (topic : option pystr) :
  fst (handle str_lower uuid4 summarize extract_metadata
         (serve str_lower uuid4 summarize extract_metadata startup requests)
         (GET_search topic))
  = Results [].
Proof.
  cbn [handle fst]. f_equal. unfold search_endpoint. cbv zeta.
  rewrite serve_search_db. rewrite search_no_rows; reflexivity.
Qed.

End ServiceFacts.


(** ** The LLM client *)

Section ClientFacts.

Import LLM.

Lemma take_3_padded (l : list pystr) :
  (if (3 <=? length l)%nat then take 3 l
   else take 3 (l ++ repeat (py "general") 3))
  = take 3 (l ++ repeat (py "general") 3).
Proof.
  destruct (Nat.leb_spec 3 (length l)); [|reflexivity].
  rewrite take_app_le by assumption. reflexivity.
Qed.

Lemma normalize_shape data m :
  normalize data = Some m ->
  length (Analyze.meta_topics m) = 3%nat ∧ Analyze.meta_sentiment m ∈ sentiments.
Proof.
  unfold normalize. destruct data as [| | | | | |d]; try discriminate. cbv zeta.
  destruct (iterate _) as [ts|]; [|discriminate].
  rewrite take_3_padded.
  destruct (hashable _); [|discriminate].
  intros [= <-]. cbn [Analyze.meta_topics Analyze.meta_sentiment]. split.
  - rewrite length_take, length_app. cbn [length]. lia.
  - destruct (or_else _ _) as [| | | |s| |];
      try (right; left; fail).
    case_bool_decide as H; [exact H|right; left].
Qed.

(** X17. Whatever the model answers, the metadata that the client returns
    has exactly three topics and one of the three sentiments; and for an
    answer that is a dict with a list of topics and a string as sentiment,
    the topics are the first three strings of the list, completed with
    "general", and the sentiment is the string when it is one of the three
    and "neutral" otherwise. *)
Theorem normalize_metadata (data : json) :
  (∀ m, normalize data = Some m ->
        length (Analyze.meta_topics m) = 3%nat
        ∧ Analyze.meta_sentiment m ∈ sentiments)
  ∧ (∀ d ts s,
       data = JObj d ->
       dict_get (py "topics") d = JList ts ->
       dict_get (py "sentiment") d = JStr s ->
       normalize data
       = Some (Analyze.mkMeta
                 (as_str (dict_get (py "title") d))
                 (take 3 (omap as_str ts ++ repeat (py "general") 3))
                 (if bool_decide (s ∈ sentiments) then s else py "neutral"))).
Proof.
  split; [intros m; apply normalize_shape|].
  intros d ts s -> Ht Hs. unfold normalize. cbv zeta. rewrite Ht, Hs.
  assert (iterate (or_else (JList ts) (JList [])) = Some ts) as ->.
  { unfold or_else. destruct ts; reflexivity. }
  rewrite take_3_padded.
  unfold or_else. cbn [truthy]. destruct s as [|c s].
  - reflexivity.
  - reflexivity.
Qed.







End ClientFacts.


(** ** The records of the endpoint with the LLM client *)

Section ShapedRecords.

Import Analyze AnalyzeSpec.

Variable uuid4 : nat -> pystr.
Variable use_mock : bool.
Variable generate_content : nat -> LLM.prompt -> pystr -> option (option pystr).
Variable json_loads : pystr -> option LLM.json.

Let summarize := LLM.summarize use_mock generate_content.
Let extract_metadata := LLM.extract_metadata use_mock generate_content json_loads.

Lemma extract_metadata_shape k t m :
  extract_metadata k t = Some m ->
  length (meta_topics m) = 3%nat ∧ meta_sentiment m ∈ LLM.sentiments.
Proof.
  unfold extract_metadata, LLM.extract_metadata. destruct use_mock.
  - intros [= <-]. split; [reflexivity|]. right. left.
  - destruct (generate_content k LLM._META_PROMPT t) as [r|]; [|discriminate].
    cbv zeta. destruct (json_loads _) as [data|]; [|discriminate].
    apply normalize_shape.
Qed.

Lemma call_llm_shape t w :
  let '(summary, title, topics, sentiment, llm_ok) :=
    fst (call_llm summarize extract_metadata t w) in
  length topics = 3%nat ∧ sentiment ∈ LLM.sentiments.
Proof.
  unfold call_llm. destruct (summarize (calls w) t) as [s|].
  - destruct (extract_metadata (calls (tick w)) t) as [m|] eqn:E.
    + cbn [fst]. apply extract_metadata_shape in E. exact E.
    + cbn [fst]. split; [reflexivity|]. right. left.
  - cbn [fst]. split; [reflexivity|]. right. left.
Qed.

Lemma analyze_single_shaped text w a w' :
  _analyze_single uuid4 summarize extract_metadata text w = (inr a, w') ->
  record_shaped a.
Proof.
  destruct (decide (Str.strip text = [])) as [E|E].
  { rewrite analyze_single_blank by assumption. discriminate. }
  destruct (analyze_single_world uuid4 summarize extract_metadata text w E)
    as (l1 & l2 & row & stored & w1 & Heq & _ & _ & _ & _ & _ & Hst & Hrow).
  rewrite Heq. intros [= <- <-].
  pose proof (call_llm_shape (Str.strip text) w) as Hshape.
  destruct (fst (call_llm summarize extract_metadata (Str.strip text) w))
    as [[[[summary title] topics] sentiment] llm_ok].
  destruct Hshape as [Ht Hs]. subst stored row.
  unfold record_shaped. cbn.
  split; [eauto|]. split; [assumption|]. split; [assumption|]. split; [|assumption].
  destruct (extract_ranked (Str.strip text)) as (ranked & _ & _ & _ & ->).
  rewrite length_take. lia.
Qed.

Lemma analyze_loop_shaped items results w rs w' :
  Forall record_shaped results ->
  analyze_loop uuid4 summarize extract_metadata items results w = (inr rs, w') ->
  Forall record_shaped rs.
Proof.
  revert results w. induction items as [|t items IH]; intros results w Hres.
  - cbn. intros [= <- <-]. assumption.
  - cbn [analyze_loop].
    destruct (_analyze_single uuid4 summarize extract_metadata t w)
      as [[e|a] w1] eqn:E; [discriminate|].
    apply IH. apply Forall_app. split; [assumption|].
    constructor; [|constructor]. eapply analyze_single_shaped. exact E.
Qed.

(** X19. With the LLM client of the repository, mocked or not, and whatever
    the model answers, every record that the endpoint returns has an id,
    exactly three topics, one of the three sentiments, at most three
    keywords and a text that is not empty. *)
Theorem analyze_records_shaped (payload : AnalyzeRequest) (w : World) :
  match fst (analyze uuid4 summarize extract_metadata payload w) with
  | inr results => Forall record_shaped results
  | inl _ => True
  end.
Proof.
  unfold analyze. destruct (items_of payload) as [e|items]; [exact I|].
  destruct (analyze_loop uuid4 summarize extract_metadata items [] w)
    as [[e|rs] w'] eqn:E; [exact I|].
  cbn [fst]. eapply analyze_loop_shaped; [|exact E]. constructor.
Qed.

End ShapedRecords.
